(** * Session lifecycle of playwright-mcp-bypass

    A shallow embedding of the session registry ([ServerList], server.ts),
    of the dispatch method [callTool] (server.ts), of the Request/Response
    adapter ([startHttpServer], httpServer.ts) and of the command line
    program (program.ts: [serverFactory], [createUserDataDir],
    [setupExitWatchdog], [startSSEServer]).

    Node runs the program on one thread: a piece of code between two
    [await]s runs without interruption, and other requests interleave only
    at the [await]s.  Every such piece is a function on an explicit state
    here, and an execution is a sequence of pieces.  Time is a natural
    number of milliseconds. *)

From Stdlib Require Import Ascii String Lia.
From stdpp Require Import base option list gmap strings pretty fin_maps.

Set Warnings "-register-all".

(** ** JavaScript values the program handles *)

Module Js.

(** The double quote character, for template literals that contain one. *)
Definition dquote : string := String (ascii_of_nat 34) EmptyString.

(** [x || y] on strings: the empty string is falsy. *)
Definition or_string (x y : string) : string :=
  if decide (x = EmptyString) then y else x.

(** [x || y] where [x] may be [undefined]. *)
Definition or_default (x : option string) (y : string) : string :=
  match x with
  | Some v => or_string v y
  | None => y
  end.

(** A value given to [throw]: an [Error] object (with the [name] of its
    class and its [message]) or a primitive string. *)
Inductive Thrown :=
| ThrownError (name message : string)
| ThrownString (s : string).

(** [String(error)]: [Error.prototype.toString] for an error object. *)
Definition String_of (e : Thrown) : string :=
  match e with
  | ThrownError name message =>
      if decide (name = EmptyString) then message
      else if decide (message = EmptyString) then name
      else name +:+ ": " +:+ message
  | ThrownString s => s
  end.

(** [String(error.message || error)], the idiom of both catch blocks. *)
Definition message_or_self (e : Thrown) : string :=
  match e with
  | ThrownError _ message =>
      if decide (message = EmptyString) then String_of e else message
  | ThrownString _ => String_of e
  end.

(** [new Error(m)] *)
Definition new_Error (m : string) : Thrown := ThrownError "Error" m.

(** A [Promise<void>] seen from outside: it never settles, or it is
    fulfilled or rejected at some time. *)
Inductive Promise :=
| Pending
| FulfilledAt (t : N)
| RejectedAt (t : N) (e : Thrown).

(** A promise made at time [now] that settles after the given time. *)
Definition delay (now : N) (p : Promise) : Promise :=
  match p with
  | Pending => Pending
  | FulfilledAt d => FulfilledAt (now + d)%N
  | RejectedAt d e => RejectedAt (now + d)%N e
  end.

(** The first promise of the list to be rejected (the earliest one, the
    leftmost among those of equal time), if any. *)
Fixpoint first_rejection (ps : list Promise) : option (N * Thrown) :=
  match ps with
  | [] => None
  | RejectedAt t e :: ps' =>
      match first_rejection ps' with
      | Some (t', e') => if decide (t' < t)%N then Some (t', e') else Some (t, e)
      | None => Some (t, e)
      end
  | _ :: ps' => first_rejection ps'
  end.

(** When all promises of the list are fulfilled: the time of the last. *)
Fixpoint all_fulfilled (ps : list Promise) : option N :=
  match ps with
  | [] => Some 0%N
  | FulfilledAt t :: ps' => (λ t', N.max t t') <$> all_fulfilled ps'
  | _ :: _ => None
  end.

(** [Promise.all(ps)]: rejected as soon as one of [ps] is, fulfilled once
    all of them are, pending otherwise. *)
Definition Promise_all (ps : list Promise) : Promise :=
  match first_rejection ps with
  | Some (t, e) => RejectedAt t e
  | None =>
      match all_fulfilled ps with
      | Some t => FulfilledAt t
      | None => Pending
      end
  end.

End Js.

(** ** server.ts: the registry [ServerList] *)

(** A [Server] object is known by its identity: [indexOf] compares with
    [===].  Identities are numbered in order of construction. *)
Definition Server := nat.

Module ServerList.

Import Js.

(** The registry and what it acts on: [_servers], the identity the next
    constructed [Server] gets, and the calls of [server.close()] made so
    far, oldest first. *)
Record t := mk {
  _servers : list Server;
  next_server : Server;
  close_calls : list Server;
}.

Definition empty : t := mk [] 0 [].

(** [this._servers.splice(index, 1)] at [index = this._servers.indexOf(server)],
    nothing when [indexOf] gives -1. *)
Fixpoint splice_indexOf (server : Server) (l : list Server) : list Server :=
  match l with
  | [] => []
  | x :: l' => if decide (x = server) then l' else x :: splice_indexOf server l'
  end.

Section WithRelease.

(** What a call of [server.close()] (the SDK's close, then
    [context.close()]) answers, given the calls of [close()] made before
    it: neither is code of this layer. *)
Variable release : list Server → Server → Promise.

(** [create(sessionId)], after [await this._serverFactory(sessionId)] has
    given a new server: push it and return it.  When the factory rejects,
    [create] rejects at the [await] and the registry stays as it is. *)
Definition create (sl : t) : t * Server :=
  let server := next_server sl in
  (mk (_servers sl ++ [server]) (S server) (close_calls sl), server).

(** [close(server)] up to its [await]: the result is the promise of
    [server.close()], which [close] awaits and returns. *)
Definition close (server : Server) (sl : t) : t * Promise :=
  (mk (splice_indexOf server (_servers sl)) (next_server sl)
      (close_calls sl ++ [server]),
   release (close_calls sl) server).

(** [this._servers.map(server => server.close())]: the calls are made one
    after the other, before anything is awaited. *)
Fixpoint map_close (l : list Server) (calls : list Server)
  : list Server * list Promise :=
  match l with
  | [] => (calls, [])
  | server :: l' =>
      let p := release calls server in
      let '(calls', ps) := map_close l' (calls ++ [server]) in
      (calls', p :: ps)
  end.

(** [closeAll()]: [await Promise.all(...)] of these calls; [_servers] is
    not assigned. *)
Definition closeAll (sl : t) : t * Promise :=
  let '(calls, ps) := map_close (_servers sl) (close_calls sl) in
  (mk (_servers sl) (next_server sl) calls, Promise_all ps).

End WithRelease.

End ServerList.

(** ** server.ts: [callTool], the dispatch by tool name *)

Module Dispatch.

Import Js.

(** A JSON value: request bodies, tool arguments and input schemas. *)
Inductive Json :=
| JNull
| JBool (b : bool)
| JNum (n : Z)
| JStr (s : string)
| JArr (items : list Json)
| JObj (fields : list (string * Json)).

(** The empty object [{}]. *)
Definition empty_object : Json := JObj [].

(** Whether a value counts as true in a condition. *)
Definition truthy (j : Json) : bool :=
  match j with
  | JNull => false
  | JBool b => b
  | JNum n => negb (n =? 0)%Z
  | JStr s => negb (bool_decide (s = EmptyString))
  | JArr _ | JObj _ => true
  end.

(** [object.field], [None] for [undefined]. *)
Fixpoint get_field (field : string) (fields : list (string * Json)) : option Json :=
  match fields with
  | [] => None
  | (k, v) :: fields' =>
      if decide (k = field) then Some v else get_field field fields'
  end.

(** One item of a tool result's [content]. *)
Record Content := mkContent {
  c_type : string;
  c_text : option string;
}.

(** [ToolResult]: [isError] is [false] when the field is left out. *)
Record ToolResult := mkResult {
  content : list Content;
  isError : bool;
}.

(** [ToolSchema]: the name, the description and the input schema, a JSON
    object when there is one. *)
Record ToolSchema := mkSchema {
  name : string;
  description : option string;
  inputSchema : option (list (string * Json));
}.

(** What [await tool.handle(context, args)] does: it returns a result or
    throws.  The handlers drive the browser, which is not modelled. *)
Inductive Outcome :=
| Returns (result : ToolResult)
| Throws (error : Thrown).

Record Tool := mkTool {
  schema : ToolSchema;
  handle : Json → Outcome;
}.

(** [tools.find(tool => tool.schema.name === name)] *)
Definition find_tool (tools : list Tool) (n : string) : option Tool :=
  List.find (λ tool, bool_decide (name (schema tool) = n)) tools.

(** [result.content?.find((c) => c.type === 'text')?.text] *)
Definition errorContent (result : ToolResult) : option string :=
  match List.find (λ c, bool_decide (c_type c = "text")) (content result) with
  | Some c => c_text c
  | None => None
  end.

(** [`Tool "${name}" not found`] *)
Definition not_found (n : string) : string :=
  "Tool " +:+ dquote +:+ n +:+ dquote +:+ " not found".

(** [`Tool "${name}" execution failed`] *)
Definition execution_failed (n : string) : string :=
  "Tool " +:+ dquote +:+ n +:+ dquote +:+ " execution failed".

(** [server.callTool(name, args)]: the result, or the [Error] it throws.
    The throw for a missing tool is before the [try]; what is thrown
    inside the [try] is caught and thrown again as
    [new Error(String(error.message || error))]. *)
Definition callTool (tools : list Tool) (n : string) (args : Json)
  : ToolResult + Thrown :=
  match find_tool tools n with
  | None => inr (new_Error (not_found n))
  | Some tool =>
      match handle tool args with
      | Returns result =>
          if isError result
          then
            let thrown :=
              new_Error (or_default (errorContent result) (execution_failed n)) in
            inr (new_Error (message_or_self thrown))
          else inl result
      | Throws error => inr (new_Error (message_or_self error))
      end
  end.

End Dispatch.

(** ** httpServer.ts: the Request/Response adapter *)

(** A [NodeJS.Timeout] object, known by its identity. *)
Definition Timeout := nat.

Module HttpServer.

Import Js.

(** [const sessionTimeout = 30 * 60 * 1000; // 30 minutes (in milliseconds)] *)
Definition sessionTimeout : N := 30 * 60 * 1000.

(** An armed timeout of the session middleware: the [sessionId] its
    callback closes over and the time it is due. *)
Record Timer := mkTimer {
  t_sessionId : string;
  t_due : N;
}.

(** The lines the session code writes with [console.log]. *)
Inductive Log :=
| LogCreating (sessionId : string)
| LogReusing (sessionId : string)
| LogTimedOut (sessionId : string).

#[export] Instance Log_eq_dec : EqDecision Log.
Proof. solve_decision. Defined.

(** The state [startHttpServer] closes over, with the event loop's part
    of it: the clock, the armed timeouts, and the asynchronous calls that
    are suspended at an [await]. *)
Record World := mkWorld {
  now : N;
  serverList : ServerList.t;
  sessions : gmap string Server;
  sessionTimers : gmap string Timeout;
  timers : gmap Timeout Timer;
  next_timer : Timeout;
  (** requests suspended at [await serverList.create(sessionId)] *)
  creating : list string;
  (** timeout callbacks suspended at [await serverList.close(serverToClose)],
      each with the promise it awaits *)
  evicting : list (string * Promise);
  console : list Log;
}.

Definition init : World :=
  mkWorld 0%N ServerList.empty ∅ ∅ ∅ 0 [] [] [].

Definition set_now (f : N → N) (w : World) : World :=
  mkWorld (f (now w)) (serverList w) (sessions w) (sessionTimers w) (timers w)
    (next_timer w) (creating w) (evicting w) (console w).
Definition set_serverList (f : ServerList.t → ServerList.t) (w : World) : World :=
  mkWorld (now w) (f (serverList w)) (sessions w) (sessionTimers w) (timers w)
    (next_timer w) (creating w) (evicting w) (console w).
Definition set_sessions (f : gmap string Server → gmap string Server) (w : World) : World :=
  mkWorld (now w) (serverList w) (f (sessions w)) (sessionTimers w) (timers w)
    (next_timer w) (creating w) (evicting w) (console w).
Definition set_sessionTimers (f : gmap string Timeout → gmap string Timeout) (w : World) : World :=
  mkWorld (now w) (serverList w) (sessions w) (f (sessionTimers w)) (timers w)
    (next_timer w) (creating w) (evicting w) (console w).
Definition set_timers (f : gmap Timeout Timer → gmap Timeout Timer) (w : World) : World :=
  mkWorld (now w) (serverList w) (sessions w) (sessionTimers w) (f (timers w))
    (next_timer w) (creating w) (evicting w) (console w).
Definition set_next_timer (f : Timeout → Timeout) (w : World) : World :=
  mkWorld (now w) (serverList w) (sessions w) (sessionTimers w) (timers w)
    (f (next_timer w)) (creating w) (evicting w) (console w).
Definition set_creating (f : list string → list string) (w : World) : World :=
  mkWorld (now w) (serverList w) (sessions w) (sessionTimers w) (timers w)
    (next_timer w) (f (creating w)) (evicting w) (console w).
Definition set_evicting (f : list (string * Promise) → list (string * Promise))
  (w : World) : World :=
  mkWorld (now w) (serverList w) (sessions w) (sessionTimers w) (timers w)
    (next_timer w) (creating w) (f (evicting w)) (console w).
Definition console_log (l : Log) (w : World) : World :=
  mkWorld (now w) (serverList w) (sessions w) (sessionTimers w) (timers w)
    (next_timer w) (creating w) (evicting w) (console w ++ [l]).

(** One suspended call less for [sessionId]. *)
Fixpoint resume (sessionId : string) (l : list string) : list string :=
  match l with
  | [] => []
  | x :: l' => if decide (x = sessionId) then l' else x :: resume sessionId l'
  end.

(** [ctx.get('session-id')]: Koa gives the empty string for a header
    that the request does not have. *)
Definition ctx_get (header : option string) : string :=
  default EmptyString header.

(** [const sessionId = ctx.get('session-id') || 'default'] *)
Definition sessionId_of (header : option string) : string :=
  or_string (ctx_get header) "default".

(** [clearTimeout(timer)] *)
Definition clearTimeout (timer : Timeout) (w : World) : World :=
  set_timers (delete timer) w.

(** [setTimeout(callback, delay)], where [callback] is the eviction of
    [sessionId]: the new [Timeout] and the state with it armed. *)
Definition setTimeout (sessionId : string) (delay : N) (w : World)
  : World * Timeout :=
  let timer := next_timer w in
  (set_next_timer S
     (set_timers (insert timer (mkTimer sessionId (now w + delay)%N)) w),
   timer).

(** The block [// Reset session timeout on activity] of the middleware. *)
Definition reset_timeout (sessionId : string) (w : World) : World :=
  let w1 :=
    match sessionTimers w !! sessionId with
    | Some old => clearTimeout old w
    | None => w
    end in
  let '(w2, timer) := setTimeout sessionId sessionTimeout w1 in
  set_sessionTimers (insert sessionId timer) w2.

(** The session middleware from its start to [await next()], or to its
    [await serverList.create(sessionId)] when the session is new: the
    server passed to the route ([ctx.state.server]), if there is one yet. *)
Definition middleware (sessionId : string) (w : World) : World * option Server :=
  match sessions w !! sessionId with
  | Some server =>
      (reset_timeout sessionId (console_log (LogReusing sessionId) w), Some server)
  | None =>
      (set_creating (cons sessionId) (console_log (LogCreating sessionId) w), None)
  end.

(** The middleware from the [await serverList.create(sessionId)] of a
    suspended request to [await next()], when the factory has given a
    server.  The push of [create] and the continuation of the middleware
    are two microtasks; microtasks run in the order they are queued, and
    the state they leave is the one of this single piece. *)
Definition middleware_created (sessionId : string) (w : World)
  : World * option Server :=
  if decide (sessionId ∈ creating w) then
    let '(sl, server) := ServerList.create (serverList w) in
    let w1 := set_creating (resume sessionId) (set_serverList (λ _, sl) w) in
    let w2 := set_sessions (insert sessionId server) w1 in
    (reset_timeout sessionId w2, Some server)
  else (w, None).

(** The same [await] when the factory rejects: the middleware throws, Koa
    answers the request with an error, and nothing is registered. *)
Definition middleware_failed (sessionId : string) (w : World) : World :=
  set_creating (resume sessionId) w.


Section WithRelease.

(** What [server.close()] answers (see [ServerList]); the times of its
    promises count from the call. *)
Variable release : list Server → Server → Promise.

(** The callback of the timeout, from its start to its end or to its
    [await serverList.close(serverToClose)]. *)
Definition timeout_callback (sessionId : string) (w : World) : World :=
  let w := console_log (LogTimedOut sessionId) w in
  match sessions w !! sessionId with
  | Some serverToClose =>
      let '(sl, p) := ServerList.close release serverToClose (serverList w) in
      set_evicting (cons (sessionId, delay (now w) p))
        (set_serverList (λ _, sl) w)
  | None => set_sessionTimers (delete sessionId) w
  end.

(** The event loop runs the callback of an armed timeout that is due, and
    the timeout is no longer armed. *)
Definition timeout_fires (timer : Timeout) (w : World) : World :=
  match timers w !! timer with
  | Some t =>
      if decide (t_due t ≤ now w)%N
      then timeout_callback (t_sessionId t) (set_timers (delete timer) w)
      else w
  | None => w
  end.

(** The promise the suspended callback of [sessionId] awaits (the one
    suspended last, if several are). *)
Fixpoint awaited (sessionId : string) (l : list (string * Promise))
  : option Promise :=
  match l with
  | [] => None
  | (k, p) :: l' => if decide (k = sessionId) then Some p else awaited sessionId l'
  end.

Fixpoint resume_evicting (sessionId : string) (l : list (string * Promise))
  : list (string * Promise) :=
  match l with
  | [] => []
  | (k, p) :: l' =>
      if decide (k = sessionId) then l' else (k, p) :: resume_evicting sessionId l'
  end.

(** The callback after its [await]: once the promise is fulfilled,
    [sessions.delete(sessionId)] and [sessionTimers.delete(sessionId)].
    Once it is rejected the [async] callback throws: nothing handles the
    rejection of the promise it returned, which ends the process, so
    that the server takes no step there. *)
Definition timeout_resumes (sessionId : string) (w : World) : World :=
  match awaited sessionId (evicting w) with
  | Some (FulfilledAt t) =>
      if decide (t ≤ now w)%N
      then set_sessionTimers (delete sessionId)
             (set_sessions (delete sessionId)
                (set_evicting (resume_evicting sessionId) w))
      else w
  | Some (RejectedAt _ _) | Some Pending | None => w
  end.

(** The loop of [gracefulShutdown] over [sessions.entries()], for one
    entry: close the server through the list, collect the promise, clear
    and forget the timeout of the session. *)
Definition close_session (acc : World * list Promise) (entry : string * Server)
  : World * list Promise :=
  let '(w, closingPromises) := acc in
  let '(sessionId, server) := entry in
  let '(sl, p) := ServerList.close release server (serverList w) in
  let w := set_serverList (λ _, sl) w in
  let w :=
    match sessionTimers w !! sessionId with
    | Some timer => set_sessionTimers (delete sessionId) (clearTimeout timer w)
    | None => w
    end in
  (w, closingPromises ++ [p]).

(** The callback given to [httpServer.close], up to its
    [await Promise.all(closingPromises)]: the state, and the promise
    awaited.  The source visits the entries in the order of insertion,
    the model in the order of [map_to_list]: the properties below are
    proved of the entries as a set, and hold in any order. *)
Definition close_sessions (w : World) : World * Promise :=
  let '(w, closingPromises) :=
    foldl close_session (w, []) (map_to_list (sessions w)) in
  (set_sessions (λ _, ∅) w, Promise_all closingPromises).

(** Force close after a timeout: [}, 15000); // 15 seconds timeout] *)
Definition force_exit_delay : N := 15000.

(** [gracefulShutdown], as the state the process ends in and the time
    (from the signal) and the code of the [process.exit] that ends it.
    [closed] is when [httpServer.close] calls back, and whether with an
    error; it never does while a connection stays open.  The callback
    runs only if it is called before the timeout has ended the process;
    its [finally] exits once the closing promises are settled, whichever
    way; the timeout exits with code 1. *)
Definition gracefulShutdown (closed : option (N * bool)) (w : World)
  : World * (N * nat) :=
  match closed with
  | Some (t, err) =>
      if decide (t < force_exit_delay)%N then
        let '(w', p) := close_sessions w in
        let code := if err then 1 else 0 in
        match p with
        | FulfilledAt d | RejectedAt d _ =>
            if decide (t + d < force_exit_delay)%N
            then (w', ((t + d)%N, code))
            else (w', (force_exit_delay, 1))
        | Pending => (w', (force_exit_delay, 1))
        end
      else (w, (force_exit_delay, 1))
  | None => (w, (force_exit_delay, 1))
  end.

End WithRelease.

(** The clock moves on. *)
Definition advance (d : N) (w : World) : World := set_now (λ t, (t + d)%N) w.

(** *** The routes *)

Import Dispatch.

(** The route the router matches a request to: [POST /tools/:toolName],
    [GET /tools/browser_tab_list], [GET /openapi.json]; or, for a request
    that no route matches, what [router.allowedMethods()] sees: a method
    the router does not implement, [OPTIONS] on the path of a route,
    another method on the path of a route, or a path of no route. *)
Inductive Route :=
| PostTool (toolName : string)
| GetTabList
| GetOpenApi
| NotImplemented
| Options
| MethodNotAllowed
| Unrouted.

(** A request: the [Session-Id] header if it has one, its route, and the
    body the body parser gives. *)
Record Request := mkRequest {
  header : option string;
  route : Route;
  body : option Json;
}.

Inductive Method := get | post.

(** [requestBody] of an operation: [required] as a condition sees it,
    and the input schema without [$schema]. *)
Record RequestBody := mkBody {
  rb_required : bool;
  rb_schema : list (string * Json);
}.

(** What [openApiSpec.paths[path][method]] has that depends on the tool;
    [tags], [parameters] and [responses] are the same for all. *)
Record Operation := mkOperation {
  op_method : Method;
  summary : string;
  operationId : string;
  requestBody : option RequestBody;
}.

(** [openApiSpec]: [info.version], [servers[0].url] and [paths]; the
    other fields are constants. *)
Record OpenApi := mkOpenApi {
  info_version : string;
  servers_url : string;
  paths : gmap string Operation;
}.

Inductive Body :=
| Success (result : ToolResult)
| Failure (error : string)
| Spec (spec : OpenApi)
| Text (s : string).

Record Response := mkResponse {
  status : nat;
  response_body : Body;
}.

(** [Object.keys(x).length > 0] *)
Definition has_keys (x : Json) : bool :=
  match x with
  | JObj fields => bool_decide (fields ≠ [])
  | JArr items => bool_decide (items ≠ [])
  | JStr s => negb (bool_decide (s = EmptyString))
  | JNull | JBool _ | JNum _ => false
  end.

(** [x.length > 0], for an array or a string. *)
Definition has_length (x : Json) : bool :=
  match x with
  | JArr items => bool_decide (items ≠ [])
  | JStr s => negb (bool_decide (s = EmptyString))
  | _ => false
  end.

(** [inputSchema.properties && Object.keys(inputSchema.properties).length > 0] *)
Definition hasProperties (inputSchema : list (string * Json)) : bool :=
  match get_field "properties" inputSchema with
  | Some properties => truthy properties && has_keys properties
  | None => false
  end.

(** [inputSchema.required && inputSchema.required.length > 0] *)
Definition isRequired (inputSchema : list (string * Json)) : bool :=
  match get_field "required" inputSchema with
  | Some required => truthy required && has_length required
  | None => false
  end.

(** [{ ...inputSchema }] and [delete schemaForRequestBody.$schema] *)
Definition schemaForRequestBody (inputSchema : list (string * Json))
  : list (string * Json) :=
  List.filter (λ kv, negb (bool_decide (kv.1 = "$schema"))) inputSchema.

(** The body of [for (const tool of toolSchemas)], for one schema. *)
Definition add_path (paths : gmap string Operation) (tool : ToolSchema)
  : gmap string Operation :=
  let path := "/tools/" +:+ name tool in
  let isGetOperation := bool_decide (name tool = "browser_tab_list") in
  let method := if isGetOperation then get else post in
  let body :=
    match inputSchema tool with
    | Some inputSchema =>
        if negb isGetOperation && (hasProperties inputSchema || isRequired inputSchema)
        then Some (mkBody (isRequired inputSchema) (schemaForRequestBody inputSchema))
        else None
    | None => None
    end in
  <[path := mkOperation method
       (or_default (description tool) ("Execute " +:+ name tool))
       (name tool) body]> paths.

(** The specification [GET /openapi.json] answers with, from the tools
    of the server ([_registeredTools]). *)
Definition openApiSpec (version : string) (port : N) (registeredTools : list Tool)
  : OpenApi :=
  let toolSchemas := schema <$> registeredTools in
  mkOpenApi version ("http://localhost:" +:+ pretty port)
    (foldl add_path ∅ toolSchemas).

(** [ctx.request.body || {}] *)
Definition params_of (body : option Json) : Json :=
  match body with
  | Some b => if truthy b then b else empty_object
  | None => empty_object
  end.

(** The [try] and [catch] of the two tool routes. *)
Definition call_route (tools : list Tool) (toolName : string) (params : Json)
  : Response :=
  match callTool tools toolName params with
  | inl result => mkResponse 200 (Success result)
  | inr error => mkResponse 500 (Failure (message_or_self error))
  end.

Section WithTools.

(** [version] of package.json, the port of [startHttpServer], and the
    tools each server was created with. *)
Variable version : string.
Variable port : N.
Variable registeredTools : Server → list Tool.

(** The route handlers, given [ctx.state.server], and
    [router.allowedMethods()] after them: a request that no route
    matches is answered 501, 200 with an empty body, or 405 there, and
    Koa's 404 otherwise. *)
Definition router (req : Request) (server : Server) : Response :=
  match route req with
  | PostTool toolName =>
      call_route (registeredTools server) toolName (params_of (body req))
  | GetTabList =>
      call_route (registeredTools server) "browser_tab_list" empty_object
  | GetOpenApi =>
      mkResponse 200 (Spec (openApiSpec version port (registeredTools server)))
  | NotImplemented => mkResponse 501 (Text "Not Implemented")
  | Options => mkResponse 200 (Text EmptyString)
  | MethodNotAllowed => mkResponse 405 (Text "Method Not Allowed")
  | Unrouted => mkResponse 404 (Text "Not Found")
  end.

(** A request from its arrival: the middleware, then the router when the
    middleware has the server. *)
Definition serve (req : Request) (w : World) : World * option Response :=
  let '(w', server) := middleware (sessionId_of (header req)) w in
  (w', router req <$> server).

(** A request suspended in the middleware, from the creation of its
    server on. *)
Definition serve_created (req : Request) (w : World) : World * option Response :=
  let '(w', server) := middleware_created (sessionId_of (header req)) w in
  (w', router req <$> server).

End WithTools.

(** *** Executions *)

(** What happens to the server, one piece of code at a time: a request
    reaches the middleware; the factory gives its server to a request
    suspended for [sessionId], or fails; a timeout fires; a timeout
    callback resumes after its [await]; time passes. *)
Inductive Event :=
| Arrives (sessionId : string)
| Created (sessionId : string)
| Failed (sessionId : string)
| Fires (timer : Timeout)
| Resumes (sessionId : string)
| Passes (d : N).

Section Executions.

Variable release : list Server → Server → Promise.

Definition step (w : World) (e : Event) : World :=
  match e with
  | Arrives sessionId => (middleware sessionId w).1
  | Created sessionId => (middleware_created sessionId w).1
  | Failed sessionId => middleware_failed sessionId w
  | Fires timer => timeout_fires release timer w
  | Resumes sessionId => timeout_resumes sessionId w
  | Passes d => advance d w
  end.

Definition run (w : World) (events : list Event) : World :=
  foldl step w events.

End Executions.

(** How many servers the factory has given to [serverList.create]. *)
Definition created (w : World) : nat := ServerList.next_server (serverList w).

(** How many times a line was logged. *)
Definition logged (l : Log) (w : World) : nat :=
  length (List.filter (λ x, bool_decide (x = l)) (console w)).

(** No timeout is armed that [sessionTimers] does not hold for its
    session, and the timeouts in use are older than the next one. *)
Definition tracked (w : World) : Prop :=
  (∀ timer t, timers w !! timer = Some t →
     sessionTimers w !! t_sessionId t = Some timer) ∧
  (∀ k timer, sessionTimers w !! k = Some timer → timer < next_timer w).

(** A request that comes out of the middleware with its server: its
    session was there, or its server was created. *)
Definition completes (k : string) (w w1 : World) : Prop :=
  (is_Some (sessions w !! k) ∧ w1 = (middleware k w).1) ∨
  (k ∈ creating w ∧ w1 = (middleware_created k w).1).

End HttpServer.

(** ** program.ts: the factory, the exit watchdog and the SSE server *)

(** An [SSEServerTransport], one per accepted connection, known by its
    identity. *)
Definition Transport := nat.

Module Program.

Import Js.

Inductive BrowserName := chromium | firefox | webkit.

Definition browser_string (b : BrowserName) : string :=
  match b with
  | chromium => "chromium"
  | firefox => "firefox"
  | webkit => "webkit"
  end.

(** [process.platform] *)
Inductive Platform :=
| linux
| darwin
| win32
| other_platform (name : string).

(** What [createUserDataDir] reads of the process and of the system: the
    platform, two environment variables, [os.homedir()], whether
    [fs.promises.mkdir] of a path fails, and [path.join] of the platform
    with its normalisation of the segments. *)
Record Process := mkProcess {
  platform : Platform;
  XDG_CACHE_HOME : option string;
  LOCALAPPDATA : option string;
  homedir : string;
  mkdir : string → option Thrown;
  join : list string → string;
}.

(** The chain of [if (process.platform === ...)]: the cache directory,
    or [None] where the function throws [Unsupported platform]. *)
Definition cacheDirectory (pr : Process) : option string :=
  let join := join pr in
  match platform pr with
  | linux => Some (or_default (XDG_CACHE_HOME pr) (join [homedir pr; ".cache"]))
  | darwin => Some (join [homedir pr; "Library"; "Caches"])
  | win32 => Some (or_default (LOCALAPPDATA pr) (join [homedir pr; "AppData"; "Local"]))
  | other_platform _ => None
  end.

Definition platform_string (p : Platform) : string :=
  match p with
  | linux => "linux"
  | darwin => "darwin"
  | win32 => "win32"
  | other_platform name => name
  end.

(** [sessionId && sessionId !== 'default' ? `-${sessionId}` : ''] *)
Definition profileSuffix (sessionId : option string) : string :=
  match sessionId with
  | Some s =>
      if decide (s = EmptyString) then EmptyString
      else if decide (s = "default") then EmptyString
      else "-" +:+ s
  | None => EmptyString
  end.

(** The name of the profile directory without a suffix. *)
Definition base_name (browserName : BrowserName) : string :=
  "mcp-" +:+ browser_string browserName +:+ "-profile".

(** [`mcp-${browserName}-profile${profileSuffix}`] *)
Definition profileDirName (browserName : BrowserName) (sessionId : option string)
  : string :=
  "mcp-" +:+ browser_string browserName +:+ "-profile" +:+ profileSuffix sessionId.

(** [createUserDataDir(browserName, sessionId)]: the directory, created,
    or what the function throws. *)
Definition createUserDataDir (pr : Process) (browserName : BrowserName)
  (sessionId : option string) : string + Thrown :=
  match cacheDirectory pr with
  | None => inr (new_Error ("Unsupported platform: " +:+ platform_string (platform pr)))
  | Some cacheDirectory =>
      let result :=
        join pr
          [cacheDirectory; "ms-playwright"; profileDirName browserName sessionId] in
      match mkdir pr result with
      | Some error => inr error
      | None => inl result
      end
  end.

(** [effectiveUserDataDir] of [serverFactory(sessionId)], the
    [userDataDir] it gives to [createServer]:
    [options.userDataDir ?? await createUserDataDir(browserName, sessionId)]. *)
Definition serverFactory (pr : Process) (browserName : BrowserName)
  (userDataDir : option string) (sessionId : option string) : string + Thrown :=
  match userDataDir with
  | Some dir => inl dir
  | None => createUserDataDir pr browserName sessionId
  end.

(** The session identifier each transport creates its server with:
    [serverList.create()] for stdio, [serverList.create(sessionId)] with
    the identifier of the middleware for the HTTP API. *)
Definition stdio_sessionId : option string := None.
Definition http_sessionId (header : option string) : option string :=
  Some (HttpServer.sessionId_of header).

(** *** [setupExitWatchdog] *)

Section WithRelease.

Variable release : list Server → Server → Promise.

(** [setTimeout(() => process.exit(0), 15000)] *)
Definition watchdog_delay : N := 15000.

(** [handleExit], as the registry after [closeAll()] has made its calls,
    and the time (from the signal) and code of the exit of the process:
    [process.exit(0)] after the [await], or in the timeout if that comes
    first.  When [closeAll()] rejects, the handler rejects with it and
    nothing handles the rejection: Node 18 and later (the engines of
    package.json) end the process with code 1 then. *)
Definition handleExit (sl : ServerList.t) : ServerList.t * (N * nat) :=
  let '(sl', p) := ServerList.closeAll release sl in
  match p with
  | FulfilledAt d =>
      if decide (d < watchdog_delay)%N then (sl', (d, 0)) else (sl', (watchdog_delay, 0))
  | RejectedAt d _ =>
      if decide (d < watchdog_delay)%N then (sl', (d, 1)) else (sl', (watchdog_delay, 0))
  | Pending => (sl', (watchdog_delay, 0))
  end.

(** The events [setupExitWatchdog] sets [handleExit] on:
    [process.stdin.on('close', ...)], [process.on('SIGINT', ...)] and
    [process.on('SIGTERM', ...)]. *)
Inductive ExitEvent := stdin_close | SIGINT | SIGTERM.

(** [startHttpServer] sets [gracefulShutdown] on the two signals. *)
Definition gracefulShutdown_listens (e : ExitEvent) : bool :=
  match e with
  | stdin_close => false
  | SIGINT | SIGTERM => true
  end.

(** An exit event in a process that serves the HTTP API or not
    ([options.httpPort]): [handleExit], set first, runs first; then
    [gracefulShutdown] if it listens.  The process ends at the first
    [process.exit] reached, and the callback of [httpServer.close] has
    run only if it came before. *)
Definition on_exit_event (httpPort : bool) (e : ExitEvent)
  (closed : option (N * bool)) (w : HttpServer.World)
  : HttpServer.World * (N * nat) :=
  let '(sl, exit1) := handleExit (HttpServer.serverList w) in
  let w1 := HttpServer.set_serverList (λ _, sl) w in
  if httpPort && gracefulShutdown_listens e then
    let '(w2, exit2) := HttpServer.gracefulShutdown release closed w1 in
    if decide (exit2.1 < exit1.1)%N then (w2, exit2)
    else
      match closed with
      | Some (t, _) => if decide (t < exit1.1)%N then (w2, exit1) else (w1, exit1)
      | None => (w1, exit1)
      end
  else (w1, exit1).

(** *** [startSSEServer] *)

(** The state [startSSEServer] closes over: the registry, [sessions], the
    identity of the next transport, the GET requests suspended at
    [await serverList.create(sessionId)], the listeners of ['close'] set
    on the responses, and the connections that are closed. *)
Record Sse := mkSse {
  serverList : ServerList.t;
  sessions : gmap string Transport;
  next_transport : Transport;
  accepting : gmap Transport string;
  on_close : gmap Transport (string * Server);
  closed : gset Transport;
}.

Definition sse_init : Sse := mkSse ServerList.empty ∅ 0 ∅ ∅ ∅.

(** A request by its method: a POST with the [sessionId] of its query
    ([searchParams.get] gives [null] without one), a GET, for which the
    new transport draws the given [sessionId], or another method. *)
Inductive Request :=
| POST (sessionId : option string)
| GET (sessionId : string)
| OTHER.

(** The answer the handler writes, or the transport it hands the request
    or the connection to. *)
Inductive Answer :=
| Status (statusCode : nat) (text : string)
| HandlePostMessage (transport : Transport)
| Creating (transport : Transport).

(** The request handler up to its first [await]. *)
Definition handler (req : Request) (st : Sse) : Sse * Answer :=
  match req with
  | POST sessionId =>
      match sessionId with
      | None => (st, Status 400 "Missing sessionId")
      | Some sessionId =>
          if decide (sessionId = EmptyString) then (st, Status 400 "Missing sessionId")
          else
            match sessions st !! sessionId with
            | None => (st, Status 404 "Session not found")
            | Some transport => (st, HandlePostMessage transport)
            end
      end
  | GET sessionId =>
      let transport := next_transport st in
      (mkSse (serverList st) (<[sessionId := transport]> (sessions st))
         (S transport) (<[transport := sessionId]> (accepting st))
         (on_close st) (closed st),
       Creating transport)
  | OTHER => (st, Status 405 "Method not allowed")
  end.

(** The GET handler after [await serverList.create(sessionId)] has given
    the server: the listener of ['close'] is set, then the server is
    connected to the transport. *)
Definition handler_created (transport : Transport) (st : Sse) : Sse :=
  match accepting st !! transport with
  | Some sessionId =>
      let '(sl, server) := ServerList.create (serverList st) in
      mkSse sl (sessions st) (next_transport st) (delete transport (accepting st))
        (<[transport := (sessionId, server)]> (on_close st)) (closed st)
  | None => st
  end.

(** The connection of a transport closes: ['close'] is emitted once, to
    the listener if it is set by then:
    [sessions.delete(sessionId); serverList.close(server).catch(...)]. *)
Definition connection_closes (transport : Transport) (st : Sse) : Sse :=
  if decide (transport ∈ closed st) then st
  else
    match on_close st !! transport with
    | Some (sessionId, server) =>
        let '(sl, _) := ServerList.close release server (serverList st) in
        mkSse sl (delete sessionId (sessions st)) (next_transport st)
          (accepting st) (on_close st) ({[transport]} ∪ closed st)
    | None =>
        mkSse (serverList st) (sessions st) (next_transport st)
          (accepting st) (on_close st) ({[transport]} ∪ closed st)
    end.

(** What happens to the SSE server, one piece of code at a time.  When
    [serverList.create] rejects, the [async] listener throws and nothing
    handles the rejection of the promise it returned, which ends the
    process: the server takes no step there. *)
Inductive Event :=
| Arrives (req : Request)
| Created (transport : Transport)
| Closes (transport : Transport).

Definition step (st : Sse) (e : Event) : Sse :=
  match e with
  | Arrives req => (handler req st).1
  | Created transport => handler_created transport st
  | Closes transport => connection_closes transport st
  end.

End WithRelease.

End Program.

(** ** server.ts: the request handlers of [createServerWithTools] *)

Module Handlers.

Import Js Dispatch.

(** The handler of [ListToolsRequestSchema]: [tools.map(tool => tool.schema)]. *)
Definition listTools (tools : list Tool) : list ToolSchema :=
  schema <$> tools.

(** The handler of [CallToolRequestSchema]: a missing tool and a handler
    that throws both give a result with [isError], the second with
    [String(error)] for text; what the handler returns is returned as it
    is. *)
Definition callToolRequest (tools : list Tool) (n : string) (args : Json)
  : ToolResult :=
  match find_tool tools n with
  | None => mkResult [mkContent "text" (Some (not_found n))] true
  | Some tool =>
      match handle tool args with
      | Returns result => result
      | Throws error => mkResult [mkContent "text" (Some (String_of error))] true
      end
  end.

End Handlers.

(** ** tools/extractContent.ts: the tool [browser_extract_content] *)

Module ExtractContent.

Import Js Dispatch.

(** The newline character. *)
Definition nl : ascii := ascii_of_nat 10.

Fixpoint newlines (n : nat) : string :=
  match n with
  | 0 => EmptyString
  | S n' => String nl (newlines n')
  end.

(** What [replace(/\n{3,}/g, '\n\n')] writes for a maximal run of [run]
    newlines: two when the run has three or more, the run otherwise. *)
Definition replace_run (run : nat) : string :=
  if decide (3 ≤ run) then newlines 2 else newlines run.

(** [s.replace(/\n{3,}/g, '\n\n')], reading [s] after a run of [run]
    newlines. *)
Fixpoint replace_from (run : nat) (s : string) : string :=
  match s with
  | EmptyString => replace_run run
  | String c s' =>
      if decide (c = nl) then replace_from (S run) s'
      else replace_run run +:+ String c (replace_from 0 s')
  end.

(** [markdown.replace(/\n{3,}/g, '\n\n')] *)
Definition collapse_newlines (markdown : string) : string :=
  replace_from 0 markdown.

(** [`${error.message}`] in a template, for a caught value: a string
    that was thrown has no [message]. *)
Definition template_message (e : Thrown) : string :=
  match e with
  | ThrownError _ message => message
  | ThrownString _ => "undefined"
  end.

(** The page of the current tab, as far as the tool uses it:
    [page.goto(url, ...)], which may throw, and [page.content()]. *)
Record Page := mkPage {
  goto : string → option Thrown;
  page_content : string + Thrown;
}.

Section WithLibraries.

(** The libraries the tool calls: the [parse] of the Zod schema on the
    parameters, which gives the [url] or throws; [context.ensureTab()];
    JSDOM with Readability, which give the content of the article, if
    they find one that has content, or throw; Turndown; and
    [String.prototype.trim]. *)
Variable parse : option Json → string + Thrown.
Variable ensureTab : Page + Thrown.
Variable readability : string → string → option string + Thrown.
Variable turndown : string → string + Thrown.
Variable trim : string → string.

(** [processHtmlContent(html, url)] *)
Definition processHtmlContent (html url : string) : string :=
  match readability html url with
  | inl None =>
      "<warning>Readability could not extract main content from this page.</warning>"
  | inl (Some article_content) =>
      match turndown article_content with
      | inl markdown => trim (collapse_newlines markdown)
      | inr error =>
          "<error>Error processing HTML content: " +:+ template_message error
            +:+ "</error>"
      end
  | inr error =>
      "<error>Error processing HTML content: " +:+ template_message error
        +:+ "</error>"
  end.

(** The [catch] of [handle]. *)
Definition failed (url : string) (error : Thrown) : Outcome :=
  Returns
    (mkResult
       [mkContent "text"
          (Some ("<error>Failed to extract content from " +:+ url +:+ ": "
                 +:+ template_message error +:+ "</error>"))]
       true).

(** [handle(context, params)]: the parse and [ensureTab] are before the
    [try]; the wait for the load state catches its own error. *)
Definition handle (params : option Json) : Outcome :=
  match parse params with
  | inr error => Throws error
  | inl url =>
      match ensureTab with
      | inr error => Throws error
      | inl page =>
          match goto page url with
          | Some error => failed url error
          | None =>
              match page_content page with
              | inr error => failed url error
              | inl html =>
                  if decide (html = EmptyString)
                  then failed url
                         (new_Error "Failed to retrieve HTML content from the page.")
                  else
                    Returns
                      (mkResult
                         [mkContent "text" (Some (processHtmlContent html url))]
                         false)
              end
          end
      end
  end.

(** The tool, with the schema of the source; its input schema is what
    [zodToJsonSchema] makes of the Zod schema, a parameter here. *)
Definition extractContent (inputSchema : list (string * Json)) : Tool :=
  mkTool
    (mkSchema "browser_extract_content"
       (Some "Navigate to a URL and extract the main readable content as Markdown.")
       (Some inputSchema))
    (λ args, handle (Some args)).

End WithLibraries.

End ExtractContent.


(** ** program.ts: the choice of the browser *)

Module Options.

Import Program.

(** The cases of [switch (options.browser)] that set a channel. *)
Definition channels : list string :=
  ["chrome"; "chrome-beta"; "chrome-canary"; "chrome-dev";
   "msedge"; "msedge-beta"; "msedge-canary"; "msedge-dev"].

(** [switch (options.browser)]: [browserName] and [channel]. *)
Definition browser_of (browser : option string) : BrowserName * option string :=
  match browser with
  | Some b =>
      if decide (b ∈ channels) then (chromium, Some b)
      else if decide (b = "chromium") then (chromium, None)
      else if decide (b = "firefox") then (firefox, None)
      else if decide (b = "webkit") then (webkit, None)
      else (chromium, Some "chrome")
  | None => (chromium, Some "chrome")
  end.

End Options.

(** ** Invariants and views of the state *)

Module Views.

Import Js Dispatch.

(** The servers of the registry are distinct and older than the next
    server. *)
Definition distinct (sl : ServerList.t) : Prop :=
  NoDup (ServerList._servers sl) ∧
  ∀ server, server ∈ ServerList._servers sl → server < ServerList.next_server sl.

(** The path and the operation that the loop of [GET /openapi.json]
    writes for a tool. *)
Definition path_of (tool : ToolSchema) : string := "/tools/" +:+ name tool.

Definition operation_of (tool : ToolSchema) : HttpServer.Operation :=
  let isGetOperation := bool_decide (name tool = "browser_tab_list") in
  HttpServer.mkOperation
    (if isGetOperation then HttpServer.get else HttpServer.post)
    (or_default (description tool) ("Execute " +:+ name tool))
    (name tool)
    match inputSchema tool with
    | Some inputSchema =>
        if negb isGetOperation
           && (HttpServer.hasProperties inputSchema || HttpServer.isRequired inputSchema)
        then Some (HttpServer.mkBody (HttpServer.isRequired inputSchema)
                     (HttpServer.schemaForRequestBody inputSchema))
        else None
    | None => None
    end.

(** Every session has its server in the registry and a timeout in
    [sessionTimers], and every timeout of [sessionTimers] is armed for
    its session and due at most 30 minutes from now. *)
Definition live (w : HttpServer.World) : Prop :=
  HttpServer.tracked w ∧
  distinct (HttpServer.serverList w) ∧
  (∀ k server, HttpServer.sessions w !! k = Some server →
     server ∈ ServerList._servers (HttpServer.serverList w) ∧
     is_Some (HttpServer.sessionTimers w !! k)) ∧
  (∀ k timer, HttpServer.sessionTimers w !! k = Some timer →
     ∃ due, HttpServer.timers w !! timer = Some (HttpServer.mkTimer k due) ∧
            (due ≤ HttpServer.now w + HttpServer.sessionTimeout)%N).




(** The events of requests: arrivals, answers of the factory, time. *)
Definition request_event (e : HttpServer.Event) : bool :=
  match e with
  | HttpServer.Arrives _ | HttpServer.Created _ | HttpServer.Failed _
  | HttpServer.Passes _ => true
  | HttpServer.Fires _ | HttpServer.Resumes _ => false
  end.

(** Whether a string has three newlines in a row. *)
Fixpoint has_blank_run (s : string) : bool :=
  match s with
  | String a (String b (String c _ as s2) as s1) =>
      (bool_decide (a = ExtractContent.nl) && bool_decide (b = ExtractContent.nl)
       && bool_decide (c = ExtractContent.nl))
      || has_blank_run s1
  | _ => false
  end.

End Views.


(** * Example data *)

Module Examples.

Import Js.

(** A release that fails for server 0, early, and succeeds for the
    others, later. *)
Definition failing_release (calls : list Server) (server : Server) : Promise :=
  if decide (server = 0) then RejectedAt 1 (new_Error "close failed")
  else FulfilledAt 5.

(** A release that succeeds the first time and fails on a server that
    was closed before. *)
Definition release_once (calls : list Server) (server : Server) : Promise :=
  if decide (server ∈ calls) then RejectedAt 0 (new_Error "already closed")
  else FulfilledAt 0.

(** A release that always succeeds, after 20 milliseconds. *)
Definition release_ok (calls : list Server) (server : Server) : Promise :=
  FulfilledAt 20.

(** A registry with two servers. *)
Definition two_servers : ServerList.t := ServerList.mk [0; 1] 2 [].

(** What [path.join] of POSIX answers for segments that are not empty
    and hold no [.], [..] or doubled separator. *)
Fixpoint posix_join (segments : list string) : string :=
  match segments with
  | [] => "."
  | [x] => x
  | x :: rest => x +:+ "/" +:+ posix_join rest
  end.

(** A Linux process with no cache directory set, where [mkdir] works. *)
Definition linux_process : Program.Process :=
  Program.mkProcess Program.linux None None "/home/user" (λ _, None) posix_join.

(** A tool that needs a [url] and answers with a text. *)
Definition navigate_tool : Dispatch.Tool :=
  Dispatch.mkTool
    (Dispatch.mkSchema "browser_navigate" (Some "Navigate to a URL")
       (Some [("type", Dispatch.JStr "object");
              ("properties", Dispatch.JObj [("url", Dispatch.JObj [("type", Dispatch.JStr "string")])]);
              ("required", Dispatch.JArr [Dispatch.JStr "url"]);
              ("$schema", Dispatch.JStr "http://json-schema.org/draft-07/schema#")]))
    (λ args,
       match args with
       | Dispatch.JObj fields =>
           match Dispatch.get_field "url" fields with
           | Some (Dispatch.JStr url) =>
               Dispatch.Returns
                 (Dispatch.mkResult
                    [Dispatch.mkContent "text" (Some ("Navigated to " +:+ url))] false)
           | _ => Dispatch.Throws (ThrownError "ZodError" "Required")
           end
       | _ => Dispatch.Throws (ThrownError "ZodError" "Required")
       end).

(** The tool of [GET /tools/browser_tab_list], without parameters. *)
Definition tab_list_tool : Dispatch.Tool :=
  Dispatch.mkTool
    (Dispatch.mkSchema "browser_tab_list" (Some "List browser tabs")
       (Some [("type", Dispatch.JStr "object"); ("properties", Dispatch.JObj [])]))
    (λ _, Dispatch.Returns
            (Dispatch.mkResult [Dispatch.mkContent "text" (Some "No tabs open")] false)).

(** Every server is created with these two tools. *)
Definition two_tools (server : Server) : list Dispatch.Tool :=
  [navigate_tool; tab_list_tool].

(** The libraries of [browser_extract_content] on a small web: the
    parse wants a [url]; one host refuses connections; no page has an
    article. *)
Definition parse_url (params : option Dispatch.Json) : string + Thrown :=
  match params with
  | Some (Dispatch.JObj fields) =>
      match Dispatch.get_field "url" fields with
      | Some (Dispatch.JStr url) => inl url
      | _ => inr (ThrownError "ZodError" "Required")
      end
  | _ => inr (ThrownError "ZodError" "Required")
  end.

Definition small_web : ExtractContent.Page :=
  ExtractContent.mkPage
    (λ url, if decide (url = "https://down.example")
            then Some (ThrownError "Error" "net::ERR_CONNECTION_REFUSED")
            else None)
    (inl "<html></html>").

Definition extract_tool : Dispatch.Tool :=
  ExtractContent.extractContent parse_url (inl small_web)
    (λ _ _, inl None) inl id [("type", Dispatch.JStr "object")].

End Examples.

(** * Properties *)

(** ** Strings *)

Module StringFacts.

Lemma append_cons (c : ascii) (s t : string) :
  String c s +:+ t = String c (s +:+ t).
Proof. reflexivity. Qed.

Lemma append_nil_r (s : string) : s +:+ EmptyString = s.
Proof. induction s as [|c s IH]; [done|]. by rewrite append_cons, IH. Qed.

Lemma append_cancel_l (s t u : string) : s +:+ t = s +:+ u → t = u.
Proof.
  induction s as [|c s IH]; [done|].
  rewrite !append_cons. intros [= H]. by apply IH.
Qed.

Lemma append_assoc (s t u : string) : (s +:+ t) +:+ u = s +:+ t +:+ u.
Proof. induction s as [|c s IH]; [done|]. by rewrite !append_cons, IH. Qed.

End StringFacts.

(** ** The registry *)

Module ServerListFacts.

Import Js ServerList.

Section WithRelease.

Variable release : list Server → Server → Promise.

Lemma map_close_calls l calls :
  (map_close release l calls).1 = calls ++ l.
Proof.
  revert calls. induction l as [|s l IH]; intros calls; simpl.
  - by rewrite app_nil_r.
  - specialize (IH (calls ++ [s])).
    destruct (map_close release l (calls ++ [s])) as [calls' ps]; simpl in *.
    by rewrite IH, <- app_assoc.
Qed.

Lemma map_close_length l calls :
  length (map_close release l calls).2 = length l.
Proof.
  revert calls. induction l as [|s l IH]; intros calls; simpl; [done|].
  specialize (IH (calls ++ [s])).
  destruct (map_close release l (calls ++ [s])) as [calls' ps]; simpl in *.
  by rewrite IH.
Qed.

Lemma map_close_lookup l calls i s :
  l !! i = Some s →
  (map_close release l calls).2 !! i = Some (release (calls ++ take i l) s).
Proof.
  revert calls i. induction l as [|x l IH]; intros calls i Hi; [done|].
  simpl. specialize (IH (calls ++ [x])).
  destruct (map_close release l (calls ++ [x])) as [calls' ps] eqn:E; simpl in *.
  destruct i as [|i]; simpl in *.
  - injection Hi as ->. by rewrite app_nil_r.
  - rewrite (IH i Hi). by rewrite <- app_assoc.
Qed.

End WithRelease.

Lemma first_rejection_None ps :
  first_rejection ps = None ↔ ∀ t e, RejectedAt t e ∉ ps.
Proof.
  induction ps as [|p ps IH]; simpl.
  - split; [intros _ t e H; by apply elem_of_nil in H | done].
  - destruct p as [|t|t e].
    + rewrite IH. split; intros H t e.
      * intros [?|?]%elem_of_cons; [done|]. by eapply H.
      * intros ?. eapply H. by right.
    + rewrite IH. split; intros H t' e'.
      * intros [?|?]%elem_of_cons; [done|]. by eapply H.
      * intros ?. eapply H. by right.
    + split.
      * destruct (first_rejection ps) as [[t' e']|]; [case_decide|]; done.
      * intros H. exfalso. eapply H. by left.
Qed.

Lemma first_rejection_Some ps t e :
  first_rejection ps = Some (t, e) →
  RejectedAt t e ∈ ps ∧ ∀ t' e', RejectedAt t' e' ∈ ps → (t ≤ t')%N.
Proof.
  revert t e. induction ps as [|p ps IH]; intros t e; simpl; [done|].
  destruct p as [|t0|t0 e0].
  - intros [Hin Hmin]%IH. split; [by right|].
    intros t' e' [?|?]%elem_of_cons; [done|]. by eapply Hmin.
  - intros [Hin Hmin]%IH. split; [by right|].
    intros t' e' [?|?]%elem_of_cons; [done|]. by eapply Hmin.
  - destruct (first_rejection ps) as [[t1 e1]|] eqn:E.
    + destruct (IH _ _ eq_refl) as [Hin Hmin].
      case_decide as Hlt; intros [= <- <-].
      * split; [by right|].
        intros t' e' [[= -> ->]|?]%elem_of_cons; [lia|]. by eapply Hmin.
      * split; [by left|].
        intros t' e' [[= -> ->]|?]%elem_of_cons; [lia|].
        etrans; [|by eapply Hmin]. lia.
    + intros [= <- <-]. split; [by left|].
      intros t' e' [[= -> ->]|Hin]%elem_of_cons; [lia|].
      by apply first_rejection_None in Hin.
Qed.

Lemma all_fulfilled_Some ps t :
  all_fulfilled ps = Some t →
  ∀ p, p ∈ ps → ∃ t', p = FulfilledAt t' ∧ (t' ≤ t)%N.
Proof.
  revert t. induction ps as [|q ps IH]; intros t; simpl.
  - intros _ p H. by apply elem_of_nil in H.
  - destruct q as [|t0|t0 e0]; try done.
    destruct (all_fulfilled ps) as [t1|] eqn:E; simpl; [|done].
    intros [= <-] p [->|Hin]%elem_of_cons.
    + eexists; split; [done|lia].
    + destruct (IH _ eq_refl p Hin) as (t' & -> & Hle).
      eexists; split; [done|lia].
Qed.

Lemma all_fulfilled_None ps :
  all_fulfilled ps = None → ∃ p, p ∈ ps ∧ ∀ t, p ≠ FulfilledAt t.
Proof.
  induction ps as [|q ps IH]; simpl; [done|].
  destruct q as [|t0|t0 e0].
  - intros _. exists Pending. split; [by left|done].
  - destruct (all_fulfilled ps) eqn:E; simpl; [done|].
    intros _. destruct (IH eq_refl) as (p & Hin & Hp).
    exists p. split; [by right|done].
  - intros _. exists (RejectedAt t0 e0). split; [by left|done].
Qed.

End ServerListFacts.

Module RegistryClaims.

Import Js ServerList ServerListFacts Examples.

Lemma splice_indexOf_absent (s : Server) (l : list Server) :
  s ∉ l → splice_indexOf s l = l.
Proof.
  induction l as [|x l IH]; simpl; [done|].
  intros Hnot. case_decide as Hx.
  - subst. exfalso. apply Hnot. by left.
  - f_equal. apply IH. intros ?. apply Hnot. by right.
Qed.

Lemma elem_of_splice_indexOf_ne (s x : Server) (l : list Server) :
  x ≠ s → x ∈ splice_indexOf s l ↔ x ∈ l.
Proof.
  intros Hne. induction l as [|y l IH]; simpl; [done|].
  case_decide as Hy.
  - subst. rewrite elem_of_cons. split; [by right|]. by intros [?|?].
  - rewrite !elem_of_cons, IH. done.
Qed.

Lemma splice_indexOf_NoDup (s : Server) (l : list Server) :
  NoDup l → s ∉ splice_indexOf s l.
Proof.
  induction 1 as [|x l Hx Hl IH]; simpl.
  - by intros ?%elem_of_nil.
  - case_decide as Hxs.
    + by subst.
    + intros [?|?]%elem_of_cons; [by subst|done].
Qed.

(** C2, as the code has it: [closeAll()] calls [close()] on every server
    of the list, in order and before it awaits anything; it is fulfilled
    once every release is, at the time of the last; it is rejected with
    the earliest failure as soon as one release fails; and it leaves
    [_servers] as it was. *)
Theorem closeAll_calls_all_and_awaits_all
  (release : list Server → Server → Promise) (sl : ServerList.t) :
  let ps := (map_close release (_servers sl) (close_calls sl)).2 in
  let sl' := (closeAll release sl).1 in
  let p := (closeAll release sl).2 in
  _servers sl' = _servers sl ∧
  close_calls sl' = close_calls sl ++ _servers sl ∧
  length ps = length (_servers sl) ∧
  (∀ i s, _servers sl !! i = Some s →
     ps !! i = Some (release (close_calls sl ++ take i (_servers sl)) s)) ∧
  ((∀ q, q ∈ ps → ∃ t, q = FulfilledAt t) →
     ∃ t, p = FulfilledAt t ∧ ∀ t', FulfilledAt t' ∈ ps → (t' ≤ t)%N) ∧
  (∀ t e, RejectedAt t e ∈ ps →
     ∃ t' e', p = RejectedAt t' e' ∧ RejectedAt t' e' ∈ ps ∧ (t' ≤ t)%N).
Proof.
  intros ps sl' p. subst sl' p. unfold closeAll.
  pose proof (map_close_calls release (_servers sl) (close_calls sl)) as Hcalls.
  pose proof (map_close_length release (_servers sl) (close_calls sl)) as Hlen.
  pose proof (λ i s, map_close_lookup release (_servers sl) (close_calls sl) i s)
    as Hlook.
  fold ps in Hlen, Hlook.
  destruct (map_close release (_servers sl) (close_calls sl)) as [calls ps0] eqn:E.
  simpl in *. subst ps. repeat split; try done.
  - intros Hall. unfold Promise_all.
    destruct (first_rejection ps0) as [[t e]|] eqn:Hrej.
    + apply first_rejection_Some in Hrej as [Hin _].
      destruct (Hall _ Hin) as [? ?]. done.
    + destruct (all_fulfilled ps0) as [t|] eqn:Hful.
      * exists t. split; [done|]. intros t' Hin.
        destruct (all_fulfilled_Some _ _ Hful _ Hin) as (t'' & [= <-] & Hle). done.
      * apply all_fulfilled_None in Hful as (q & Hin & Hq).
        destruct (Hall _ Hin) as [t ->]. by destruct (Hq t).
  - intros t e Hin. unfold Promise_all.
    destruct (first_rejection ps0) as [[t' e']|] eqn:Hrej.
    + apply first_rejection_Some in Hrej as [Hin' Hmin].
      exists t', e'. split_and!; [done|done|by eapply Hmin].
    + exfalso. by eapply first_rejection_None.
Qed.

(** C2 as stated fails: with two servers of which the first fails to
    close after 1 ms and the second closes after 5 ms, [closeAll()] is
    rejected at 1 ms, before the second release is over, and the two
    servers are still in the list. *)
Lemma closeAll_rejects_early_and_keeps_servers :
  closeAll failing_release two_servers
  = (ServerList.mk [0; 1] 2 [0; 1], RejectedAt 1 (new_Error "close failed")) ∧
  _servers (closeAll failing_release two_servers).1 ≠ [] ∧
  (∀ t, (closeAll failing_release two_servers).2 ≠ FulfilledAt t) ∧
  failing_release [0] 1 = FulfilledAt 5.
Proof. split_and!; [reflexivity|done|done|reflexivity]. Qed.

(** C6, as the code has it: [close(server)] takes the server out of
    [_servers] (whose servers are distinct) and leaves the others; a
    second [close(server)] leaves [_servers] as it is; each of the two
    calls [server.close()], and answers what that call answers. *)
Theorem close_removes_and_closes_again
  (release : list Server → Server → Promise) (server : Server) (sl : ServerList.t) :
  NoDup (_servers sl) →
  let sl1 := (close release server sl).1 in
  let sl2 := (close release server sl1).1 in
  (server ∉ _servers sl1) ∧
  (∀ x, x ≠ server → x ∈ _servers sl1 ↔ x ∈ _servers sl) ∧
  _servers sl2 = _servers sl1 ∧
  close_calls sl1 = close_calls sl ++ [server] ∧
  close_calls sl2 = close_calls sl ++ [server; server] ∧
  (close release server sl).2 = release (close_calls sl) server ∧
  (close release server sl1).2 = release (close_calls sl ++ [server]) server.
Proof.
  intros Hnd sl1 sl2. subst sl1 sl2. simpl.
  pose proof (splice_indexOf_NoDup server _ Hnd) as Hnot.
  split_and!; try done.
  - intros x Hx. by apply elem_of_splice_indexOf_ne.
  - by apply splice_indexOf_absent.
  - by rewrite <- app_assoc.
Qed.

Lemma close_removes_and_closes_again_witness :
  NoDup (_servers two_servers) ∧
  (1 ∉ _servers (close release_once 1 two_servers).1) ∧
  (close release_once 1 (close release_once 1 two_servers).1).2
  = release_once [1] 1.
Proof.
  assert (Hnd : NoDup (_servers two_servers)).
  { unfold two_servers; simpl. apply (bool_decide_unpack _). by vm_compute. }
  pose proof (close_removes_and_closes_again release_once 1 two_servers Hnd) as H.
  simpl in H. destruct H as (H1 & _ & _ & _ & _ & _ & H7).
  split_and!; [exact Hnd|exact H1|exact H7].
Defined.

(** C6 as stated fails: the second [close()] of a server is not a no-op,
    it calls [server.close()] once more, and it fails when that call
    does. *)
Lemma close_twice_is_not_a_noop :
  let sl1 := (close release_once 0 two_servers).1 in
  (close release_once 0 two_servers).2 = FulfilledAt 0 ∧
  close release_once 0 sl1
  = (ServerList.mk [1] 2 [0; 0], RejectedAt 0 (new_Error "already closed")) ∧
  (close release_once 0 sl1).1 ≠ sl1.
Proof. split_and!; [reflexivity|reflexivity|done]. Qed.

End RegistryClaims.

(** ** The program: profile directories, exit, SSE *)

Module ProgramClaims.

Import Js Program Examples StringFacts.

Lemma profileDirName_suffix browserName sessionId :
  profileDirName browserName sessionId
  = base_name browserName +:+ profileSuffix sessionId.
Proof.
  unfold profileDirName, base_name. by rewrite !append_assoc.
Qed.

(** C10: with no [--user-data-dir], the profile directory of a session is
    [mcp-<browser>-profile-<sessionId>] for a [sessionId] that is given,
    not empty and not ["default"], and [mcp-<browser>-profile] exactly
    in the other cases; the factory then makes the directory of that name
    under the cache directory, so that the default session of the HTTP
    API and the session of stdio get the same directory. *)
Theorem profile_directory_by_session (pr : Process) (browserName : BrowserName) :
  (∀ k, k ≠ EmptyString → k ≠ "default" →
     profileDirName browserName (Some k)
     = "mcp-" +:+ browser_string browserName +:+ "-profile-" +:+ k) ∧
  profileDirName browserName None = base_name browserName ∧
  (∀ k, profileDirName browserName (Some k) = base_name browserName
        ↔ k = EmptyString ∨ k = "default") ∧
  (∀ sessionId cache,
     cacheDirectory pr = Some cache →
     mkdir pr (join pr
                 [cache; "ms-playwright"; profileDirName browserName sessionId]) = None →
     serverFactory pr browserName None sessionId
     = inl (join pr
              [cache; "ms-playwright"; profileDirName browserName sessionId])) ∧
  (∀ header, header = None ∨ header = Some EmptyString ∨ header = Some "default" →
     serverFactory pr browserName None (http_sessionId header)
     = serverFactory pr browserName None stdio_sessionId).
Proof.
  split_and!.
  - intros k Hk Hd. unfold profileDirName, profileSuffix.
    rewrite !decide_False by done. by destruct browserName.
  - unfold profileDirName, base_name; simpl. by destruct browserName.
  - intros k. rewrite profileDirName_suffix. unfold profileSuffix. split.
    + destruct (decide (k = EmptyString)) as [?|Hk]; [by left|].
      destruct (decide (k = "default")) as [?|Hd]; [by right|].
      rewrite <- (append_nil_r (base_name browserName)) at 2.
      intros Heq%append_cancel_l. done.
    + intros [-> | ->]; simpl; apply append_nil_r.
  - intros sessionId cache Hcache Hmk. unfold serverFactory, createUserDataDir.
    by rewrite Hcache, Hmk.
  - intros header Hheader.
    assert (profileDirName browserName (http_sessionId header)
            = profileDirName browserName stdio_sessionId) as Hname.
    { unfold http_sessionId, stdio_sessionId.
      destruct Hheader as [-> | [-> | ->]]; by destruct browserName. }
    unfold serverFactory, createUserDataDir. by rewrite Hname.
Qed.

Lemma profile_directory_by_session_witness :
  profileDirName chromium (Some "alice") = "mcp-chromium-profile-alice" ∧
  serverFactory linux_process chromium None (Some "alice")
  = inl "/home/user/.cache/ms-playwright/mcp-chromium-profile-alice" ∧
  serverFactory linux_process chromium None (http_sessionId None)
  = inl "/home/user/.cache/ms-playwright/mcp-chromium-profile" ∧
  serverFactory linux_process chromium None (http_sessionId None)
  = serverFactory linux_process chromium None stdio_sessionId.
Proof.
  destruct (profile_directory_by_session linux_process chromium)
    as (Hname & _ & _ & Hdir & Hsame).
  split_and!.
  - apply (Hname "alice"); by vm_compute.
  - apply (Hdir (Some "alice") "/home/user/.cache"); reflexivity.
  - apply (Hdir (http_sessionId None) "/home/user/.cache"); reflexivity.
  - apply (Hsame None). by left.
Defined.

(** *** Exit *)

Section Exit.

Variable release : list Server → Server → Promise.

Lemma close_session_calls (acc : HttpServer.World * list Promise)
  (entries : list (string * Server)) :
  ServerList.close_calls
    (HttpServer.serverList (foldl (HttpServer.close_session release) acc entries).1)
  = ServerList.close_calls (HttpServer.serverList acc.1) ++ entries.*2.
Proof.
  revert acc. induction entries as [|[k s] entries IH]; intros [w ps]; simpl.
  - by rewrite app_nil_r.
  - rewrite IH. simpl.
    destruct (HttpServer.sessionTimers _ !! k); simpl; by rewrite <- app_assoc.
Qed.

Lemma close_sessions_calls (w : HttpServer.World) :
  HttpServer.sessions (HttpServer.close_sessions release w).1 = ∅ ∧
  ServerList.close_calls (HttpServer.serverList (HttpServer.close_sessions release w).1)
  = ServerList.close_calls (HttpServer.serverList w)
    ++ (map_to_list (HttpServer.sessions w)).*2.
Proof.
  unfold HttpServer.close_sessions.
  pose proof (close_session_calls (w, []) (map_to_list (HttpServer.sessions w)))
    as Hcalls.
  by destruct (foldl _ _ _) as [w1 ps].
Qed.

Lemma gracefulShutdown_calls closed (w : HttpServer.World) :
  ∃ more,
    ServerList.close_calls
      (HttpServer.serverList (HttpServer.gracefulShutdown release closed w).1)
    = ServerList.close_calls (HttpServer.serverList w) ++ more.
Proof.
  unfold HttpServer.gracefulShutdown.
  destruct closed as [[t err]|]; [|exists []; by rewrite app_nil_r].
  case_decide; [|exists []; by rewrite app_nil_r].
  destruct (close_sessions_calls w) as [_ Hcalls].
  exists (map_to_list (HttpServer.sessions w)).*2.
  destruct (HttpServer.close_sessions release w) as [w' [|d|d e]];
    repeat case_decide; done.
Qed.

Lemma handleExit_calls (sl : ServerList.t) :
  ServerList.close_calls (handleExit release sl).1
  = ServerList.close_calls sl ++ ServerList._servers sl.
Proof.
  unfold handleExit.
  pose proof (ServerListFacts.map_close_calls release
                (ServerList._servers sl) (ServerList.close_calls sl)) as Hcalls.
  unfold ServerList.closeAll.
  destruct (ServerList.map_close release _ _) as [calls ps]; simpl in Hcalls.
  destruct (Promise_all ps); repeat case_decide; simpl; done.
Qed.

Lemma closeAll_hangs (sl : ServerList.t) :
  (∀ calls server, release calls server = Pending) →
  ServerList._servers sl ≠ [] →
  (ServerList.closeAll release sl).2 = Pending.
Proof.
  intros Hhang Hne. unfold ServerList.closeAll.
  assert (∀ l calls, first_rejection (ServerList.map_close release l calls).2 = None)
    as Hnone.
  { induction l as [|x l IH]; intros calls; [done|]. simpl.
    specialize (IH (calls ++ [x])).
    destruct (ServerList.map_close release l (calls ++ [x])) as [calls' ps].
    simpl in *. by rewrite Hhang. }
  specialize (Hnone (ServerList._servers sl) (ServerList.close_calls sl)).
  destruct (ServerList._servers sl) as [|x l]; [done|]. simpl in *.
  destruct (ServerList.map_close release l _) as [calls' ps]. simpl in *.
  rewrite Hhang in *. unfold Promise_all. simpl in *. by rewrite Hnone.
Qed.

Lemma close_sessions_hang (w : HttpServer.World) :
  (∀ calls server, release calls server = Pending) →
  HttpServer.sessions w ≠ ∅ →
  (HttpServer.close_sessions release w).2 = Pending.
Proof.
  intros Hhang Hne. unfold HttpServer.close_sessions.
  assert (∀ entries acc,
            (foldl (HttpServer.close_session release) acc entries).2
            = acc.2 ++ replicate (length entries) Pending) as Hps.
  { induction entries as [|[k x] entries IH]; intros [w0 ps]; simpl.
    - by rewrite app_nil_r.
    - rewrite IH. simpl. rewrite Hhang.
      destruct (HttpServer.sessionTimers w0 !! k); simpl; by rewrite <- app_assoc. }
  specialize (Hps (map_to_list (HttpServer.sessions w)) (w, [])).
  destruct (foldl _ _ _) as [w1 ps]. simpl in *. subst ps.
  destruct (map_to_list (HttpServer.sessions w)) as [|entry entries] eqn:E.
  - by apply map_to_list_empty_iff in E.
  - simpl. unfold Promise_all. simpl.
    assert (first_rejection (replicate (length entries) Pending) = None) as ->; [|done].
    by induction (length entries).
Qed.

Lemma handleExit_in_time (sl : ServerList.t) :
  ((handleExit release sl).2.1 ≤ 15000)%N.
Proof.
  unfold handleExit.
  destruct (ServerList.closeAll release sl) as [sl' [|d|d e]];
    repeat case_decide; simpl; unfold watchdog_delay in *; lia.
Qed.

Lemma gracefulShutdown_in_time closed (w : HttpServer.World) :
  ((HttpServer.gracefulShutdown release closed w).2.1 ≤ 15000)%N.
Proof.
  unfold HttpServer.gracefulShutdown.
  destruct closed as [[t err]|]; [|simpl; unfold HttpServer.force_exit_delay; lia].
  case_decide; [|simpl; unfold HttpServer.force_exit_delay; lia].
  destruct (HttpServer.close_sessions release w) as [w' [|d|d e]];
    repeat case_decide; simpl; unfold HttpServer.force_exit_delay in *; lia.
Qed.

(** C9: on SIGINT, SIGTERM or the close of stdin, with the HTTP API or
    without it, the process has called [close()] on every server of the
    registry when it ends, and it ends 15 seconds after the event at the
    latest, whether the releases succeed, fail or hang; when every
    release hangs, of a server at least, and of the server of a session
    where the HTTP API runs, it ends at 15 seconds exactly, with code 0.
    The
    [gracefulShutdown] of the HTTP API by itself also exits within 15
    seconds: when the HTTP server has closed before that, it has called
    [close()] on the server of every session and cleared [sessions];
    when it has not, it has done nothing but exit. *)
Theorem shutdown_closes_all_and_exits_in_time
  (httpPort : bool) (e : ExitEvent) (closed : option (N * bool))
  (w : HttpServer.World) :
  (∃ more,
     ServerList.close_calls
       (HttpServer.serverList (on_exit_event release httpPort e closed w).1)
     = ServerList.close_calls (HttpServer.serverList w)
       ++ ServerList._servers (HttpServer.serverList w) ++ more) ∧
  (∀ server, server ∈ ServerList._servers (HttpServer.serverList w) →
     server ∈ ServerList.close_calls
       (HttpServer.serverList (on_exit_event release httpPort e closed w).1)) ∧
  ((on_exit_event release httpPort e closed w).2.1 ≤ 15000)%N ∧
  ((∀ calls server, release calls server = Pending) →
   ServerList._servers (HttpServer.serverList w) ≠ [] →
   httpPort = false ∨ HttpServer.sessions w ≠ ∅ →
   (on_exit_event release httpPort e closed w).2 = (15000%N, 0)) ∧
  ((HttpServer.gracefulShutdown release closed w).2.1 ≤ 15000)%N ∧
  (∀ t err, closed = Some (t, err) → (t < 15000)%N →
     HttpServer.sessions (HttpServer.gracefulShutdown release closed w).1 = ∅ ∧
     ∀ k server, HttpServer.sessions w !! k = Some server →
       server ∈ ServerList.close_calls
         (HttpServer.serverList (HttpServer.gracefulShutdown release closed w).1)) ∧
  ((∀ t err, closed = Some (t, err) → (15000 ≤ t)%N) →
     HttpServer.gracefulShutdown release closed w = (w, (15000%N, 1))).
Proof.
  set (sl := HttpServer.serverList w).
  set (end_ := on_exit_event release httpPort e closed w).
  assert (∃ more,
     ServerList.close_calls (HttpServer.serverList end_.1)
     = ServerList.close_calls sl ++ ServerList._servers sl ++ more) as Hcalls.
  { subst end_. unfold on_exit_event.
    pose proof (handleExit_calls (HttpServer.serverList w)) as H1.
    destruct (handleExit release (HttpServer.serverList w)) as [sl1 exit1].
    simpl in H1.
    set (w1 := HttpServer.set_serverList (λ _, sl1) w).
    assert (ServerList.close_calls (HttpServer.serverList w1)
            = ServerList.close_calls sl ++ ServerList._servers sl) as Hw1 by done.
    destruct (httpPort && gracefulShutdown_listens e);
      [|exists []; by rewrite app_nil_r].
    destruct (gracefulShutdown_calls closed w1) as [more Hmore].
    rewrite Hw1, <- app_assoc in Hmore.
    destruct (HttpServer.gracefulShutdown release closed w1) as [w2 exit2].
    simpl in Hmore.
    case_decide; [by exists more|].
    destruct closed as [[t ?]|]; [case_decide|]; simpl;
      (by exists more) || (exists []; by rewrite app_nil_r). }
  split_and!.
  - done.
  - intros server Hin. destruct Hcalls as [more ->].
    rewrite !elem_of_app. auto.
  - subst end_. unfold on_exit_event.
    pose proof (handleExit_in_time (HttpServer.serverList w)) as H1.
    destruct (handleExit release (HttpServer.serverList w)) as [sl1 exit1].
    simpl in H1.
    destruct (httpPort && gracefulShutdown_listens e); [|done].
    destruct (HttpServer.gracefulShutdown release closed _) as [w2 exit2].
    case_decide; simpl; [lia|].
    destruct closed as [[t ?]|]; [case_decide|]; simpl; lia.
  - intros Hhang Hne Hsessions. subst end_. unfold on_exit_event.
    assert (handleExit release (HttpServer.serverList w)
            = ((handleExit release (HttpServer.serverList w)).1, (15000%N, 0)))
      as Hexit.
    { unfold handleExit. pose proof (closeAll_hangs sl Hhang Hne) as Hp.
      fold sl. destruct (ServerList.closeAll release sl) as [sl' p].
      simpl in Hp. by subst p. }
    rewrite Hexit.
    set (w1 := HttpServer.set_serverList _ w).
    destruct Hsessions as [-> | Hsessions]; [done|].
    destruct (httpPort && gracefulShutdown_listens e); [|done].
    assert ((HttpServer.gracefulShutdown release closed w1).2 = (15000%N, 1)) as H2.
    { unfold HttpServer.gracefulShutdown.
      destruct closed as [[t err]|]; [|done]. case_decide; [|done].
      pose proof (close_sessions_hang w1 Hhang Hsessions) as Hp.
      destruct (HttpServer.close_sessions release w1) as [w' p].
      simpl in Hp. by subst p. }
    destruct (HttpServer.gracefulShutdown release closed w1) as [w2 exit2].
    simpl in H2. subst exit2. rewrite decide_False by (simpl; lia).
    destruct closed as [[t ?]|]; [case_decide|]; done.
  - apply gracefulShutdown_in_time.
  - intros t err -> Ht. unfold HttpServer.gracefulShutdown.
    rewrite decide_True by done.
    destruct (close_sessions_calls w) as [Hempty Hcl].
    assert (∀ k server, HttpServer.sessions w !! k = Some server →
              server ∈ ServerList.close_calls
                (HttpServer.serverList (HttpServer.close_sessions release w).1))
      as Hclose.
    { intros k server Hk. rewrite Hcl. apply elem_of_app. right.
      apply list_elem_of_fmap. exists (k, server). split; [done|].
      by apply elem_of_map_to_list. }
    destruct (HttpServer.close_sessions release w) as [w' [|d|d e']];
      repeat case_decide; simpl in *; done.
  - intros Hlate. unfold HttpServer.gracefulShutdown.
    destruct closed as [[t err]|]; [|done].
    rewrite decide_False; [done|]. specialize (Hlate t err eq_refl).
    unfold HttpServer.force_exit_delay. lia.
Qed.

End Exit.

Lemma shutdown_closes_all_and_exits_in_time_witness :
  let w := HttpServer.set_sessions (λ _, {["s" := 0]})
             (HttpServer.set_serverList (λ _, two_servers) HttpServer.init) in
  (on_exit_event (λ _ _, Pending) true SIGTERM (Some (100%N, false)) w).2
  = (15000%N, 0) ∧
  1 ∈ ServerList.close_calls
        (HttpServer.serverList
           (on_exit_event (λ _ _, Pending) true SIGTERM (Some (100%N, false)) w).1) ∧
  HttpServer.sessions
    (HttpServer.gracefulShutdown release_ok (Some (100%N, false)) w).1 = ∅ ∧
  HttpServer.gracefulShutdown release_ok (Some (20000%N, false)) w
  = (w, (15000%N, 1)).
Proof.
  intros w. split_and!.
  - apply (shutdown_closes_all_and_exits_in_time (λ _ _, Pending) true SIGTERM
             (Some (100%N, false)) w); [done|done|].
    right. by vm_compute.
  - apply (shutdown_closes_all_and_exits_in_time (λ _ _, Pending) true SIGTERM
             (Some (100%N, false)) w).
    apply list_elem_of_lookup. by exists 1.
  - eapply (shutdown_closes_all_and_exits_in_time release_ok true SIGTERM
              (Some (100%N, false)) w); [reflexivity|lia].
  - apply (shutdown_closes_all_and_exits_in_time release_ok true SIGTERM
             (Some (20000%N, false)) w).
    intros t err [= <- <-]. lia.
Defined.


(** *** The SSE server *)

Section SseServer.

Variable release : list Server → Server → Promise.


End SseServer.




End ProgramClaims.

(** ** The Request/Response adapter *)

Module HttpFacts.

Import Js Dispatch HttpServer StringFacts.

(** What the reset of the timeout leaves alone. *)
Lemma reset_timeout_frame (k : string) (w : World) :
  now (reset_timeout k w) = now w ∧
  serverList (reset_timeout k w) = serverList w ∧
  sessions (reset_timeout k w) = sessions w ∧
  creating (reset_timeout k w) = creating w ∧
  evicting (reset_timeout k w) = evicting w ∧
  console (reset_timeout k w) = console w ∧
  next_timer (reset_timeout k w) = S (next_timer w).
Proof. unfold reset_timeout. by destruct (sessionTimers w !! k). Qed.

(** The timeout it arms and registers. *)
Lemma reset_timeout_armed (k : string) (w : World) :
  sessionTimers (reset_timeout k w) = <[k := next_timer w]> (sessionTimers w) ∧
  timers (reset_timeout k w) !! next_timer w
  = Some (mkTimer k (now w + sessionTimeout)).
Proof.
  unfold reset_timeout.
  destruct (sessionTimers w !! k); simpl; by rewrite lookup_insert_eq.
Qed.

(** The other timeouts: the one registered for the session is cleared,
    the rest stay. *)
Lemma reset_timeout_others (k : string) (w : World) (timer : Timeout) :
  timer ≠ next_timer w →
  timers (reset_timeout k w) !! timer
  = if decide (sessionTimers w !! k = Some timer) then None else timers w !! timer.
Proof.
  intros Hne. unfold reset_timeout.
  destruct (sessionTimers w !! k) as [old|] eqn:E; simpl.
  - rewrite lookup_insert_ne by done. case_decide as Hold.
    + injection Hold as ->. apply lookup_delete_eq.
    + apply lookup_delete_ne. congruence.
  - by rewrite lookup_insert_ne by done.
Qed.

(** The middleware on a session that [sessions] does not have, and once
    the factory has answered. *)
Lemma middleware_absent (k : string) (w : World) :
  sessions w !! k = None →
  let w1 := (middleware k w).1 in
  let new := ServerList.next_server (serverList w) in
  (middleware k w).2 = None ∧
  creating w1 = k :: creating w ∧
  sessions w1 = sessions w ∧
  serverList w1 = serverList w ∧
  (middleware_created k w1).2 = Some new ∧
  sessions (middleware_created k w1).1 = <[k := new]> (sessions w) ∧
  ServerList._servers (serverList (middleware_created k w1).1)
  = ServerList._servers (serverList w) ++ [new] ∧
  creating (middleware_created k w1).1 = creating w ∧
  sessions (middleware_failed k w1) = sessions w ∧
  serverList (middleware_failed k w1) = serverList w ∧
  creating (middleware_failed k w1) = creating w.
Proof.
  intros Hk w1 new. subst w1. unfold middleware. rewrite Hk. cbn [fst snd].
  unfold middleware_created, middleware_failed.
  rewrite decide_True by by left.
  unfold ServerList.create. cbn [fst snd].
  match goal with
  | |- context [reset_timeout k ?x] =>
      destruct (reset_timeout_frame k x) as (_ & Hsl & Hs & Hc & _);
      rewrite Hsl, Hs, Hc
  end.
  simpl. rewrite decide_True by done. done.
Qed.

Lemma not_found_message (n : string) :
  message_or_self (new_Error (not_found n)) = not_found n.
Proof. unfold not_found, new_Error, message_or_self. by rewrite append_cons. Qed.

Lemma logged_console (l : Log) (w w' : World) (l' : Log) :
  console w' = console w ++ [l'] →
  logged l w' = (if decide (l' = l) then 1 else 0) + logged l w.
Proof.
  intros Hc. unfold logged. rewrite Hc, List.filter_app, length_app. simpl.
  unfold bool_decide. destruct (decide_rel eq l' l); case_decide; simpl; try done; lia.
Qed.

Lemma logged_same (l : Log) (w w' : World) :
  console w' = console w → logged l w' = logged l w.
Proof. intros Hc. unfold logged. by rewrite Hc. Qed.

(** A request for a session that [sessions] has. *)
Lemma middleware_present (k : string) (w : World) (server : Server) :
  sessions w !! k = Some server →
  (middleware k w).2 = Some server ∧
  sessions (middleware k w).1 = sessions w ∧
  serverList (middleware k w).1 = serverList w ∧
  creating (middleware k w).1 = creating w ∧
  console (middleware k w).1 = console w ++ [LogReusing k].
Proof.
  intros Hk. unfold middleware. rewrite Hk. cbn [fst snd].
  destruct (reset_timeout_frame k (console_log (LogReusing k) w))
    as (_ & Hsl & Hs & Hc & _ & Hlog & _).
  by rewrite Hsl, Hs, Hc, Hlog.
Qed.

(** A request for a session that [sessions] does not have suspends. *)
Lemma middleware_suspends (k : string) (w : World) :
  sessions w !! k = None →
  (middleware k w).1
  = set_creating (cons k) (console_log (LogCreating k) w).
Proof. intros Hk. unfold middleware. by rewrite Hk. Qed.

(** A suspended request resumes with the server of the factory. *)
Lemma middleware_created_resumes (k : string) (w : World) (rest : list string) :
  creating w = k :: rest →
  let w' := (middleware_created k w).1 in
  created w' = S (created w) ∧
  ServerList._servers (serverList w')
  = ServerList._servers (serverList w) ++ [created w] ∧
  ServerList.close_calls (serverList w') = ServerList.close_calls (serverList w) ∧
  sessions w' = <[k := created w]> (sessions w) ∧
  creating w' = rest ∧
  console w' = console w.
Proof.
  intros Hc w'. subst w'. unfold middleware_created.
  rewrite decide_True by (rewrite Hc; by left).
  unfold ServerList.create. cbn [fst snd].
  match goal with
  | |- context [reset_timeout k ?x] =>
      destruct (reset_timeout_frame k x) as (_ & Hsl & Hs & Hcr & _ & Hlog & _)
  end.
  unfold created. rewrite Hsl, Hs, Hcr, Hlog. simpl. rewrite Hc. simpl.
  by rewrite decide_True.
Qed.

Section Runs.

Variable release : list Server → Server → Promise.

(** [n] requests, one after the other, for a session that exists. *)
Lemma run_reuses (k : string) (server : Server) (n : nat) (w : World) :
  sessions w !! k = Some server →
  let w' := run release w (replicate n (Arrives k)) in
  sessions w' = sessions w ∧
  serverList w' = serverList w ∧
  creating w' = creating w ∧
  logged (LogReusing k) w' = n + logged (LogReusing k) w ∧
  logged (LogCreating k) w' = logged (LogCreating k) w.
Proof.
  revert w. induction n as [|n IH]; intros w Hk; [done|].
  cbn [replicate run foldl step].
  destruct (middleware_present k w server Hk) as (_ & Hs & Hsl & Hc & Hlog).
  assert (sessions (middleware k w).1 !! k = Some server) as Hk' by by rewrite Hs.
  destruct (IH _ Hk') as (Hs' & Hsl' & Hc' & Hre & Hcr).
  unfold run in *. rewrite Hs', Hsl', Hc', Hre, Hcr.
  rewrite (logged_console _ _ _ _ Hlog), (logged_console _ _ _ _ Hlog).
  rewrite decide_True by done. rewrite decide_False by done.
  split_and!; try done. lia.
Qed.

(** [n] requests for a session that does not exist, none of which has
    its server yet. *)
Lemma run_suspends (k : string) (n : nat) (w : World) :
  sessions w !! k = None →
  let w' := run release w (replicate n (Arrives k)) in
  sessions w' = sessions w ∧
  serverList w' = serverList w ∧
  creating w' = replicate n k ++ creating w ∧
  logged (LogCreating k) w' = n + logged (LogCreating k) w ∧
  logged (LogReusing k) w' = logged (LogReusing k) w.
Proof.
  revert w. induction n as [|n IH]; intros w Hk; [done|].
  cbn [replicate run foldl step]. rewrite (middleware_suspends k w Hk).
  set (w1 := set_creating (cons k) (console_log (LogCreating k) w)).
  assert (sessions w1 !! k = None) as Hk' by done.
  destruct (IH _ Hk') as (Hs' & Hsl' & Hc' & Hcr & Hre).
  unfold run in *. rewrite Hs', Hsl', Hc', Hre, Hcr.
  assert (console w1 = console w ++ [LogCreating k]) as Hlog by done.
  rewrite (logged_console _ _ _ _ Hlog), (logged_console _ _ _ _ Hlog).
  rewrite decide_True by done. rewrite decide_False by done.
  split_and!; try done.
  - simpl. change (k :: creating w) with ([k] ++ creating w).
    rewrite app_assoc. f_equal. clear. induction n as [|n IH]; [done|].
    simpl. by rewrite IH.
  - lia.
Qed.

(** The factory answers [n] suspended requests, one after the other. *)
Lemma run_creates (k : string) (n : nat) (w : World) (rest : list string) :
  creating w = replicate n k ++ rest →
  let w' := run release w (replicate n (Created k)) in
  created w' = n + created w ∧
  ServerList._servers (serverList w')
  = ServerList._servers (serverList w) ++ seq (created w) n ∧
  creating w' = rest ∧
  console w' = console w ∧
  (0 < n → sessions w' !! k = Some (n + created w - 1)).
Proof.
  revert w. induction n as [|n IH]; intros w Hc.
  - simpl. rewrite app_nil_r. split_and!; try done. lia.
  - cbn [replicate run foldl step].
    destruct (middleware_created_resumes k w _ Hc)
      as (Hcr & Hsv & _ & Hs & Hc' & Hlog).
    destruct (IH _ Hc') as (Hcr' & Hsv' & Hc'' & Hlog' & Hs').
    unfold run in *. rewrite Hcr', Hsv', Hc'', Hlog', Hcr, Hsv, Hlog.
    split_and!; try done.
    + lia.
    + rewrite <- app_assoc. done.
    + intros _. destruct n as [|n].
      * simpl. rewrite Hs, lookup_insert_eq. f_equal. lia.
      * rewrite Hs' by lia. f_equal. lia.
Qed.

End Runs.


(** [tracked] looks at the timeouts only. *)
Lemma tracked_ext (w w' : World) :
  timers w' = timers w → sessionTimers w' = sessionTimers w →
  next_timer w' = next_timer w → tracked w → tracked w'.
Proof. unfold tracked. by intros -> -> ->. Qed.

Lemma tracked_init : tracked init.
Proof. split; intros ? ?; simpl; by rewrite lookup_empty. Qed.

(** The reset keeps the timeouts tracked: the timeout of the session is
    cleared, and the new one is the only one armed for the session. *)
Lemma reset_timeout_tracked (k : string) (w : World) :
  tracked w →
  tracked (reset_timeout k w) ∧
  (∀ old, sessionTimers w !! k = Some old →
     timers (reset_timeout k w) !! old = None) ∧
  (∀ timer t, timers (reset_timeout k w) !! timer = Some t → t_sessionId t = k →
     timer = next_timer w ∧ t_due t = (now w + sessionTimeout)%N).
Proof.
  intros [HA HB].
  destruct (reset_timeout_frame k w) as (_ & _ & _ & _ & _ & _ & Hnext).
  destruct (reset_timeout_armed k w) as (Hst & Hnew).
  assert (∀ timer t, timer ≠ next_timer w →
            timers (reset_timeout k w) !! timer = Some t →
            timers w !! timer = Some t ∧ t_sessionId t ≠ k) as Hother.
  { intros timer t Hne. rewrite (reset_timeout_others k w timer Hne).
    case_decide as Hold; [done|]. intros Ht. split; [done|].
    intros Hk. apply Hold. rewrite <- Hk. by apply HA. }
  split_and!.
  - split.
    + intros timer t Ht. rewrite Hst.
      destruct (decide (timer = next_timer w)) as [->|Hne].
      * rewrite Hnew in Ht. injection Ht as <-. simpl. apply lookup_insert_eq.
      * destruct (Hother timer t Hne Ht) as [Ht' Hk].
        rewrite lookup_insert_ne by done. by apply HA.
    + intros k' timer. rewrite Hst, Hnext.
      destruct (decide (k = k')) as [->|Hne].
      * rewrite lookup_insert_eq. intros [= <-]. lia.
      * rewrite lookup_insert_ne by done. intros Hk'%HB. lia.
  - intros old Hold. pose proof (HB _ _ Hold) as Hlt.
    rewrite reset_timeout_others by lia. by rewrite decide_True.
  - intros timer t Ht Hk.
    destruct (decide (timer = next_timer w)) as [->|Hne].
    + rewrite Hnew in Ht. by injection Ht as <-.
    + by destruct (Hother timer t Hne Ht).
Qed.

(** The timeouts stay tracked through the middleware. *)
Lemma tracked_middleware (k : string) (w : World) :
  tracked w → tracked (middleware k w).1.
Proof.
  intros Hw. unfold middleware. destruct (sessions w !! k); cbn [fst].
  - apply reset_timeout_tracked. by apply (tracked_ext w).
  - by apply (tracked_ext w).
Qed.

Lemma tracked_middleware_created (k : string) (w : World) :
  tracked w → tracked (middleware_created k w).1.
Proof.
  intros Hw. unfold middleware_created. case_decide; [|done].
  unfold ServerList.create. cbn [fst].
  apply reset_timeout_tracked. by apply (tracked_ext w).
Qed.


(** Such a request has reset the timeout of its session. *)
Lemma completes_reset (k : string) (w w1 : World) :
  completes k w w1 →
  ∃ x, w1 = reset_timeout k x ∧
       now x = now w ∧ timers x = timers w ∧
       sessionTimers x = sessionTimers w ∧ next_timer x = next_timer w ∧
       is_Some (sessions x !! k).
Proof.
  intros [[[server Hk] ->] | [Hin ->]].
  - unfold middleware. rewrite Hk. cbn [fst]. eexists. split; [done|].
    split_and!; done.
  - unfold middleware_created. rewrite decide_True by done.
    unfold ServerList.create. cbn [fst]. eexists. split; [done|].
    split_and!; try done. simpl. rewrite lookup_insert_eq. by eexists.
Qed.


Section Eviction.

Variable release : list Server → Server → Promise.


(** A timeout that is due fires: the server of its session is closed
    through the registry, and once the release is over the session and
    its timeout are deleted. *)
Lemma timeout_due_evicts (w : World) (k : string) (timer : Timeout) (due : N)
  (server : Server) (p : N) :
  timers w !! timer = Some (mkTimer k due) → (due ≤ now w)%N →
  sessions w !! k = Some server →
  release (ServerList.close_calls (serverList w)) server = FulfilledAt p →
  let w2 := timeout_fires release timer w in
  let w3 := timeout_resumes k (advance p w2) in
  ServerList.close_calls (serverList w2)
  = ServerList.close_calls (serverList w) ++ [server] ∧
  ServerList._servers (serverList w2)
  = ServerList.splice_indexOf server (ServerList._servers (serverList w)) ∧
  console w2 = console w ++ [LogTimedOut k] ∧
  timers w2 !! timer = None ∧
  sessions w2 !! k = Some server ∧
  sessions w3 !! k = None ∧
  sessionTimers w3 !! k = None ∧
  timers w3 !! timer = None.
Proof.
  intros Ht Hdue Hs Hrel w2 w3. subst w3 w2.
  unfold timeout_fires. rewrite Ht. cbn [t_due t_sessionId].
  rewrite decide_True by done.
  unfold timeout_callback. simpl. rewrite Hs. simpl. rewrite Hrel. simpl.
  unfold timeout_resumes. simpl.
  destruct (decide (k = k)) as [_|?]; [|done].
  destruct (decide (now w + p ≤ now w + p)%N) as [_|?]; [|lia].
  simpl. rewrite !lookup_delete_eq. done.
Qed.

End Eviction.


End HttpFacts.

Module HttpClaims.

Import Js Dispatch HttpServer Views StringFacts HttpFacts Examples.

(** C4: the session key of a request is its [Session-Id] header, and
    ["default"] without one; the middleware passes on the server that
    [sessions] has for the key, and changes neither [sessions] nor the
    registry; when there is none it calls the factory, and once the
    factory has given the new server, the server is in the registry, is
    the one [sessions] has for the key, and is passed on; if the factory
    fails nothing is registered. *)
Theorem session_key_and_get_or_create (w : World) (req : Request) :
  let k := sessionId_of (header req) in
  (header req = None → k = "default") ∧
  (∀ v, header req = Some v → v ≠ EmptyString → k = v) ∧
  (∀ server, sessions w !! k = Some server →
     (middleware k w).2 = Some server ∧
     sessions (middleware k w).1 = sessions w ∧
     serverList (middleware k w).1 = serverList w ∧
     creating (middleware k w).1 = creating w) ∧
  (sessions w !! k = None →
     let w1 := (middleware k w).1 in
     let new := ServerList.next_server (serverList w) in
     (middleware k w).2 = None ∧
     creating w1 = k :: creating w ∧
     sessions w1 = sessions w ∧
     serverList w1 = serverList w ∧
     (middleware_created k w1).2 = Some new ∧
     sessions (middleware_created k w1).1 = <[k := new]> (sessions w) ∧
     ServerList._servers (serverList (middleware_created k w1).1)
     = ServerList._servers (serverList w) ++ [new] ∧
     creating (middleware_created k w1).1 = creating w ∧
     sessions (middleware_failed k w1) = sessions w ∧
     serverList (middleware_failed k w1) = serverList w ∧
     creating (middleware_failed k w1) = creating w).
Proof.
  intros k. split_and!.
  - subst k. by intros ->.
  - subst k. intros v -> Hv. unfold sessionId_of, or_string; simpl.
    by rewrite decide_False.
  - intros server Hk. unfold middleware. rewrite Hk. cbn [fst snd].
    destruct (reset_timeout_frame k (console_log (LogReusing k) w))
      as (_ & Hsl & Hs & Hc & _).
    by rewrite Hsl, Hs, Hc.
  - intros Hk. by apply middleware_absent.
Qed.

Lemma session_key_and_get_or_create_witness :
  sessionId_of None = "default" ∧
  (middleware_created "default" (middleware "default" init).1).2 = Some 0 ∧
  sessions (middleware_created "default" (middleware "default" init).1).1
  = <["default" := 0]> ∅.
Proof.
  destruct (session_key_and_get_or_create init (mkRequest None GetTabList None))
    as (Hdefault & _ & _ & Hcreate).
  destruct (Hcreate eq_refl) as (_ & _ & _ & _ & Hnew & Hsessions & _).
  split_and!; [by apply Hdefault|exact Hnew|exact Hsessions].
Defined.

(** The tool routes on the two example tools: a call that succeeds, a
    call whose handler throws, and the tab list. *)
Example post_navigate_succeeds :
  router "0.0.10" 8080 two_tools
    (mkRequest (Some "alice") (PostTool "browser_navigate")
       (Some (JObj [("url", JStr "https://example.com")]))) 0
  = mkResponse 200
      (Success (mkResult
                  [mkContent "text" (Some "Navigated to https://example.com")]
                  false)).
Proof. reflexivity. Qed.

Example post_navigate_without_url_fails :
  router "0.0.10" 8080 two_tools
    (mkRequest None (PostTool "browser_navigate") None) 0
  = mkResponse 500 (Failure "Required").
Proof. reflexivity. Qed.

Example get_tab_list_succeeds :
  router "0.0.10" 8080 two_tools (mkRequest None GetTabList None) 0
  = mkResponse 200
      (Success (mkResult [mkContent "text" (Some "No tabs open")] false)).
Proof. reflexivity. Qed.


(** C5: a POST to [/tools/<toolName>] for a name that no tool registered
    on the server of the session has is answered, once, with status 500
    and the envelope [{success: false, error: 'Tool "<toolName>" not found'}]. *)
Theorem unknown_tool_gets_error_envelope
  (version : string) (port : N) (registeredTools : Server → list Tool)
  (req : Request) (server : Server) (toolName : string) (w : World) :
  route req = PostTool toolName →
  find_tool (registeredTools server) toolName = None →
  router version port registeredTools req server
  = mkResponse 500
      (Failure ("Tool " +:+ dquote +:+ toolName +:+ dquote +:+ " not found")) ∧
  (sessions w !! sessionId_of (header req) = Some server →
   (serve version port registeredTools req w).2
   = Some (mkResponse 500
             (Failure ("Tool " +:+ dquote +:+ toolName +:+ dquote +:+ " not found")))).
Proof.
  intros Hroute Hfind.
  assert (router version port registeredTools req server
          = mkResponse 500 (Failure (not_found toolName))) as Hrouter.
  { unfold router, call_route, callTool. rewrite Hroute, Hfind.
    by rewrite not_found_message. }
  split; [exact Hrouter|].
  intros Hsession. unfold serve, middleware. rewrite Hsession. cbn [fst snd].
  simpl. by rewrite Hrouter.
Qed.

Lemma unknown_tool_gets_error_envelope_witness :
  router "0.0.10" 8080 two_tools
    (mkRequest None (PostTool "not_a_real_tool") (Some empty_object)) 0
  = mkResponse 500
      (Failure ("Tool " +:+ dquote +:+ "not_a_real_tool" +:+ dquote +:+ " not found")).
Proof.
  apply (unknown_tool_gets_error_envelope "0.0.10" 8080 two_tools
           (mkRequest None (PostTool "not_a_real_tool") (Some empty_object))
           0 "not_a_real_tool" init); reflexivity.
Defined.


Lemma foldl_add_path_lookup (schemas : list ToolSchema)
  (m : gmap string Operation) (tool : ToolSchema) :
  tool ∈ schemas →
  ∃ op, foldl add_path m schemas !! ("/tools/" +:+ name tool) = Some op ∧
        operationId op = name tool ∧
        op_method op
        = (if bool_decide (name tool = "browser_tab_list") then get else post).
Proof.
  induction schemas as [|x schemas IH] using rev_ind; [by intros ?%elem_of_nil|].
  intros Hin. rewrite foldl_app. cbn [foldl]. unfold add_path at 1. cbv zeta.
  destruct (decide (name x = name tool)) as [Heq|Hne].
  - rewrite Heq, lookup_insert_eq. eexists. split; [done|]. by simpl.
  - rewrite lookup_insert_ne.
    + apply IH. apply elem_of_app in Hin as [?|Hx]; [done|].
      apply list_elem_of_singleton in Hx. by subst.
    + intros Hp%append_cancel_l. done.
Qed.

(** C8, as the code has it: the answer of [GET /openapi.json] is computed
    from the tools registered on the server of the session, from the port
    and from the version, and has a path for every registered tool; but
    the request goes through the session middleware like any other: for a
    session that exists the timeout of its key is reset (and nothing else
    changes), and for a session that does not exist the server is
    created and registered. *)
Theorem discovery_goes_through_session_middleware
  (version : string) (port : N) (registeredTools : Server → list Tool)
  (req : Request) (w : World) :
  route req = GetOpenApi →
  let k := sessionId_of (header req) in
  let answer server :=
    mkResponse 200 (Spec (openApiSpec version port (registeredTools server))) in
  (∀ server, router version port registeredTools req server = answer server) ∧
  (∀ server tool, tool ∈ registeredTools server →
     ∃ op, paths (openApiSpec version port (registeredTools server))
             !! ("/tools/" +:+ name (schema tool)) = Some op ∧
           operationId op = name (schema tool) ∧
           op_method op
           = (if bool_decide (name (schema tool) = "browser_tab_list")
              then get else post)) ∧
  (∀ server, sessions w !! k = Some server →
     let w' := (serve version port registeredTools req w).1 in
     (serve version port registeredTools req w).2 = Some (answer server) ∧
     sessions w' = sessions w ∧
     serverList w' = serverList w ∧
     sessionTimers w' = <[k := next_timer w]> (sessionTimers w) ∧
     timers w' !! next_timer w = Some (mkTimer k (now w + sessionTimeout))) ∧
  (sessions w !! k = None →
     let w1 := (serve version port registeredTools req w).1 in
     let new := ServerList.next_server (serverList w) in
     (serve version port registeredTools req w).2 = None ∧
     (serve_created version port registeredTools req w1).2 = Some (answer new) ∧
     sessions (serve_created version port registeredTools req w1).1
     = <[k := new]> (sessions w) ∧
     ServerList._servers (serverList (serve_created version port registeredTools req w1).1)
     = ServerList._servers (serverList w) ++ [new]).
Proof.
  intros Hroute k answer.
  assert (∀ server, router version port registeredTools req server = answer server)
    as Hrouter.
  { intros server. unfold router. by rewrite Hroute. }
  split_and!.
  - exact Hrouter.
  - intros server tool Hin. unfold openApiSpec. simpl.
    apply (foldl_add_path_lookup (schema <$> registeredTools server) ∅ (schema tool)).
    apply list_elem_of_fmap. by exists tool.
  - intros server Hk w'. subst w'. unfold serve. fold k.
    unfold middleware. rewrite Hk. cbn [fst snd].
    destruct (reset_timeout_frame k (console_log (LogReusing k) w))
      as (_ & Hsl & Hs & _).
    destruct (reset_timeout_armed k (console_log (LogReusing k) w)) as (Hst & Ht).
    cbn [console_log next_timer now sessionTimers] in Hst, Ht.
    rewrite Hsl, Hs, Hst, Ht. simpl. by rewrite Hrouter.
  - intros Hk w1 new. subst w1. unfold serve, serve_created. fold k.
    destruct (middleware_absent k w Hk)
      as (Hnone & _ & _ & _ & Hnew & Hsessions & Hservers & _).
    destruct (middleware k w) as [w1 o]. cbn [fst snd] in *. subst o.
    destruct (middleware_created k w1) as [w2 o]. cbn [fst snd] in *. subst o.
    simpl. by rewrite Hrouter.
Qed.


Lemma discovery_goes_through_session_middleware_witness :
  let req := mkRequest None GetOpenApi None in
  let w1 := (serve "0.0.10" 8080 two_tools req init).1 in
  (serve "0.0.10" 8080 two_tools req init).2 = None ∧
  (serve_created "0.0.10" 8080 two_tools req w1).2
  = Some (mkResponse 200 (Spec (openApiSpec "0.0.10" 8080 (two_tools 0)))) ∧
  servers_url (openApiSpec "0.0.10" 8080 (two_tools 0)) = "http://localhost:8080" ∧
  paths (openApiSpec "0.0.10" 8080 (two_tools 0)) !! "/tools/browser_tab_list"
  = Some (mkOperation get "List browser tabs" "browser_tab_list" None) ∧
  paths (openApiSpec "0.0.10" 8080 (two_tools 0)) !! "/tools/browser_navigate"
  = Some (mkOperation post "Navigate to a URL" "browser_navigate"
            (Some (mkBody true
                     [("type", JStr "object");
                      ("properties", JObj [("url", JObj [("type", JStr "string")])]);
                      ("required", JArr [JStr "url"])]))).
Proof.
  intros req w1.
  destruct (discovery_goes_through_session_middleware "0.0.10" 8080 two_tools
              req init eq_refl) as (_ & _ & _ & Hcreate).
  destruct (Hcreate eq_refl) as (Hnone & Hanswer & _).
  split_and!; [exact Hnone|exact Hanswer|by vm_compute..].
Defined.

(** C8 as stated fails: a [GET /openapi.json] without [Session-Id] on a
    server that has no session yet creates the server of the session
    ["default"], registers it and arms its timeout; a second one, a
    second later, clears that timeout and arms another. *)
Lemma discovery_creates_the_default_session :
  let req := mkRequest None GetOpenApi None in
  let w1 := (serve "0.0.10" 8080 two_tools req init).1 in
  let w2 := (serve_created "0.0.10" 8080 two_tools req w1).1 in
  let w3 := (serve "0.0.10" 8080 two_tools req (advance 1000 w2)).1 in
  sessions init !! "default" = None ∧
  sessions w2 !! "default" = Some 0 ∧
  ServerList._servers (serverList init) = [] ∧
  ServerList._servers (serverList w2) = [0] ∧
  timers init !! 0 = None ∧
  timers w2 !! 0 = Some (mkTimer "default" 1800000) ∧
  sessionTimers w2 !! "default" = Some 0 ∧
  timers w3 !! 0 = None ∧
  timers w3 !! 1 = Some (mkTimer "default" 1801000) ∧
  sessionTimers w3 !! "default" = Some 1 ∧
  sessions w2 ≠ sessions init ∧
  sessionTimers w3 ≠ sessionTimers w2.
Proof.
  intros req w1 w2 w3.
  split_and!; by vm_compute.
Qed.


(** C1, as the code has it: requests for one session that run one after
    the other create one server and reuse it; requests for a session
    that does not exist and that all reach [await serverList.create]
    before one of them has its server create one server each: the check
    and the creation are not one atomic section.  All these servers stay
    in the registry, and [sessions] has the one created last. *)
Theorem one_server_per_session_when_sequential
  (release : list Server → Server → Promise) (w : World) (k : string) (n : nat) :
  sessions w !! k = None →
  let sequential :=
    run release w ([Arrives k; Created k] ++ replicate n (Arrives k)) in
  let concurrent :=
    run release w (replicate (S n) (Arrives k) ++ replicate (S n) (Created k)) in
  (created sequential = 1 + created w ∧
   logged (LogCreating k) sequential = 1 + logged (LogCreating k) w ∧
   logged (LogReusing k) sequential = n + logged (LogReusing k) w ∧
   ServerList._servers (serverList sequential)
   = ServerList._servers (serverList w) ++ [created w] ∧
   sessions sequential !! k = Some (created w)) ∧
  (created concurrent = S n + created w ∧
   logged (LogCreating k) concurrent = S n + logged (LogCreating k) w ∧
   logged (LogReusing k) concurrent = logged (LogReusing k) w ∧
   ServerList._servers (serverList concurrent)
   = ServerList._servers (serverList w) ++ seq (created w) (S n) ∧
   sessions concurrent !! k = Some (n + created w)).
Proof.
  intros Hk sequential concurrent. split.
  - subst sequential. unfold run. rewrite foldl_app.
    destruct (run_suspends release k 1 w Hk) as (Hs1 & Hsl1 & Hc1 & Hcr1 & Hre1).
    destruct (run_creates release k 1 _ (creating w) Hc1)
      as (Hcr2 & Hsv2 & Hc2 & Hlog2 & Hs2).
    specialize (Hs2 ltac:(lia)).
    unfold run in *. cbn [replicate foldl app] in *.
    set (w2 := step release (step release w (Arrives k)) (Created k)) in *.
    assert (created (step release w (Arrives k)) = created w) as Hsame
      by (unfold created; by rewrite Hsl1).
    rewrite Hsame, Hsl1 in *.
    replace (1 + created w - 1) with (created w) in Hs2 by lia.
    destruct (run_reuses release k _ n w2 Hs2) as (Hs3 & Hsl3 & _ & Hre3 & Hcr3).
    unfold run in *. unfold created at 1. rewrite Hs3, Hsl3, Hre3, Hcr3.
    rewrite (logged_same _ _ _ Hlog2), (logged_same _ _ _ Hlog2), Hcr1, Hre1.
    split_and!; try done.
  - subst concurrent. unfold run. rewrite foldl_app.
    destruct (run_suspends release k (S n) w Hk) as (Hs1 & Hsl1 & Hc1 & Hcr1 & Hre1).
    destruct (run_creates release k (S n) _ (creating w) Hc1)
      as (Hcr2 & Hsv2 & Hc2 & Hlog2 & Hs2).
    specialize (Hs2 ltac:(lia)).
    unfold run in *.
    assert (created (foldl (step release) w (replicate (S n) (Arrives k)))
            = created w) as Hsame
      by (unfold created; by rewrite Hsl1).
    rewrite Hsame, Hsl1 in *.
    rewrite (logged_same _ _ _ Hlog2), (logged_same _ _ _ Hlog2), Hcr1, Hre1.
    split_and!; try done.
    rewrite Hs2. f_equal. lia.
Qed.

Lemma one_server_per_session_when_sequential_witness :
  let sequential :=
    run release_ok init ([Arrives "s"; Created "s"] ++ replicate 2 (Arrives "s")) in
  sessions init !! "s" = None ∧
  created sequential = 1 ∧
  logged (LogReusing "s") sequential = 2 ∧
  sessions sequential !! "s" = Some 0.
Proof.
  intros sequential.
  assert (sessions init !! "s" = None) as Hk by reflexivity.
  destruct (one_server_per_session_when_sequential release_ok init "s" 2 Hk)
    as ((Hcreated & _ & Hreused & _ & Hsession) & _).
  split_and!; [exact Hk|exact Hcreated|exact Hreused|exact Hsession].
Defined.

(** C1 as stated fails: two requests for the session ["s"] that both
    arrive before the factory has answered the first create two servers;
    none of the two reuses a server, both servers are in the registry, and
    [sessions] has the second only. *)
Lemma two_concurrent_requests_create_two_servers :
  let w :=
    run release_ok init [Arrives "s"; Arrives "s"; Created "s"; Created "s"] in
  created w = 2 ∧
  logged (LogCreating "s") w = 2 ∧
  logged (LogReusing "s") w = 0 ∧
  ServerList._servers (serverList w) = [0; 1] ∧
  sessions w !! "s" = Some 1 ∧
  ¬ (created w = 1 ∧ logged (LogReusing "s") w = 1).
Proof.
  intros w. split_and!; try by vm_compute.
  intros [H _]. by vm_compute in H.
Qed.








End HttpClaims.

(** * Further properties *)

(** ** Dispatch: [callTool], the MCP handler and the tool routes *)

Module DispatchFacts.

Import Js Dispatch Handlers HttpServer Views StringFacts Examples.

Lemma find_tool_Some (tools : list Tool) (n : string) (tool : Tool) :
  find_tool tools n = Some tool → tool ∈ tools ∧ name (schema tool) = n.
Proof.
  unfold find_tool. intros [Hin Hn]%List.find_some. split.
  - by apply list_elem_of_In.
  - by apply bool_decide_eq_true in Hn.
Qed.

Lemma find_tool_None (tools : list Tool) (n : string) :
  find_tool tools n = None ↔ ∀ tool, tool ∈ tools → name (schema tool) ≠ n.
Proof.
  unfold find_tool. split.
  - intros Hnone tool Hin%list_elem_of_In.
    pose proof (List.find_none _ _ Hnone tool Hin) as Hf. simpl in Hf.
    by apply bool_decide_eq_false in Hf.
  - intros Hall. destruct (List.find _ tools) as [tool|] eqn:E; [|done].
    apply List.find_some in E as [Hin%list_elem_of_In Hn].
    apply bool_decide_eq_true in Hn. by destruct (Hall tool Hin).
Qed.

Lemma find_tool_is_Some (tools : list Tool) (n : string) :
  is_Some (find_tool tools n) ↔ ∃ tool, tool ∈ tools ∧ name (schema tool) = n.
Proof.
  split.
  - intros [tool Htool]. exists tool. by apply find_tool_Some.
  - intros (tool & Hin & Hn). destruct (find_tool tools n) eqn:E; [by eexists|].
    by destruct (proj1 (find_tool_None tools n) E tool Hin).
Qed.

(** The message of the error that the catch of a tool route reads. *)
Lemma message_of_new_Error (m : string) :
  message_or_self (new_Error m) = (if decide (m = EmptyString) then "Error" else m) ∧
  message_or_self (new_Error m) ≠ EmptyString.
Proof.
  unfold message_or_self, new_Error. case_decide as Hm; [by subst|done].
Qed.

Lemma add_path_operation (paths : gmap string Operation) (tool : ToolSchema) :
  add_path paths tool = <[path_of tool := operation_of tool]> paths.
Proof. reflexivity. Qed.

Lemma path_of_inj (t1 t2 : ToolSchema) : path_of t1 = path_of t2 → name t1 = name t2.
Proof. unfold path_of. apply append_cancel_l. Qed.

(** The paths of the specification come from the tools, each from the
    last tool of its name. *)
Lemma foldl_add_path_Some (schemas : list ToolSchema) (m : gmap string Operation)
  (p : string) (op : Operation) :
  foldl add_path m schemas !! p = Some op →
  m !! p = Some op ∨
  ∃ tool, tool ∈ schemas ∧ p = path_of tool ∧ op = operation_of tool.
Proof.
  induction schemas as [|x schemas IH] using rev_ind; [by left|].
  rewrite foldl_app. cbn [foldl]. rewrite add_path_operation.
  destruct (decide (path_of x = p)) as [<-|Hne].
  - rewrite lookup_insert_eq. intros [= <-]. right. exists x.
    split; [|done]. apply elem_of_app. right. by apply list_elem_of_singleton.
  - rewrite lookup_insert_ne by done. intros [?|(tool & Hin & ? & ?)]%IH; [by left|].
    right. exists tool. split; [|done]. apply elem_of_app. by left.
Qed.

Lemma foldl_add_path_is_Some (schemas : list ToolSchema) (m : gmap string Operation)
  (tool : ToolSchema) :
  tool ∈ schemas → is_Some (foldl add_path m schemas !! path_of tool).
Proof.
  induction schemas as [|x schemas IH] using rev_ind; [by intros ?%elem_of_nil|].
  intros Hin. rewrite foldl_app. cbn [foldl]. rewrite add_path_operation.
  destruct (decide (path_of x = path_of tool)) as [Heq|Hne].
  - rewrite Heq, lookup_insert_eq. by eexists.
  - rewrite lookup_insert_ne by done. apply IH.
    apply elem_of_app in Hin as [?|Hx]; [done|].
    apply list_elem_of_singleton in Hx. by subst.
Qed.

Lemma message_of_Error (class message : string) :
  message ≠ EmptyString → message_or_self (ThrownError class message) = message.
Proof. intros Hm. unfold message_or_self. by rewrite decide_False. Qed.

Lemma or_default_nonempty (x : option string) (y : string) :
  y ≠ EmptyString → or_default x y ≠ EmptyString.
Proof.
  intros Hy. destruct x as [v|]; [|done]. simpl. unfold or_string.
  by case_decide.
Qed.

Lemma get_field_schemaForRequestBody (inputSchema : list (string * Json)) :
  get_field "$schema" (schemaForRequestBody inputSchema) = None ∧
  ∀ f, f ≠ "$schema" →
    get_field f (schemaForRequestBody inputSchema) = get_field f inputSchema.
Proof.
  unfold schemaForRequestBody.
  induction inputSchema as [|[k v] fields [IH1 IH2]]; [done|].
  simpl. destruct (decide (k = "$schema")) as [->|Hk].
  - rewrite bool_decide_eq_true_2 by done. simpl. split; [done|].
    intros f Hf. rewrite decide_False by done. by apply IH2.
  - rewrite bool_decide_eq_false_2 by done. simpl. split.
    + by rewrite decide_False.
    + intros f Hf. case_decide; [done|]. by apply IH2.
Qed.

(** X1: The HTTP route and the MCP handler of a tool call agree: either the
    route answers 200 with a result that is no error, the one the MCP
    handler returns, or it answers 500 with an error text that is not
    empty and the MCP handler returns a result with [isError]. *)
Theorem tool_route_agrees_with_mcp_handler
  (tools : list Tool) (n : string) (args : Json) :
  (∃ result,
     call_route tools n args = mkResponse 200 (Success result) ∧
     isError result = false ∧
     callToolRequest tools n args = result) ∨
  (∃ error,
     call_route tools n args = mkResponse 500 (Failure error) ∧
     error ≠ EmptyString ∧
     isError (callToolRequest tools n args) = true).
Proof.
  unfold call_route, callTool, callToolRequest.
  destruct (find_tool tools n) as [tool|].
  - destruct (handle tool args) as [result|error].
    + destruct (isError result) eqn:E.
      * right. eexists. split; [done|]. split; [|done].
        apply message_of_new_Error.
      * left. by exists result.
    + right. eexists. split; [done|]. split; [|done].
      apply message_of_new_Error.
  - right. eexists. split; [done|]. split; [|done]. apply message_of_new_Error.
Qed.

(** X2: The text of a failed tool call.  When the handler throws an error
    with a message, the route answers the message alone, and the MCP
    handler the error as a string, with the name of its class; when the
    handler returns a result with [isError], the route answers the text of
    the first item of type [text], or [Tool "<name>" execution failed]
    when there is no such text. *)
Theorem tool_failure_text
  (tools : list Tool) (n : string) (args : Json) (tool : Tool) :
  find_tool tools n = Some tool →
  (∀ class message, handle tool args = Throws (ThrownError class message) →
     message ≠ EmptyString →
     call_route tools n args = mkResponse 500 (Failure message) ∧
     callToolRequest tools n args
     = mkResult [mkContent "text" (Some (String_of (ThrownError class message)))] true) ∧
  (∀ result, handle tool args = Returns result → isError result = true →
     call_route tools n args
     = mkResponse 500
         (Failure (or_default (errorContent result) (execution_failed n))) ∧
     callToolRequest tools n args = result).
Proof.
  intros Hfind. unfold call_route, callTool, callToolRequest. rewrite Hfind.
  split.
  - intros class message -> Hm. split; [|done].
    rewrite (message_of_Error class message Hm).
    unfold new_Error. by rewrite (message_of_Error "Error" message Hm).
  - intros result -> ->. split; [|done].
    assert (or_default (errorContent result) (execution_failed n) ≠ EmptyString)
      as Hne by (apply or_default_nonempty; unfold execution_failed;
                 by rewrite append_cons).
    unfold new_Error. by rewrite !(message_of_Error "Error" _ Hne).
Qed.

Lemma tool_failure_text_witness :
  call_route (two_tools 0) "browser_navigate" empty_object
  = mkResponse 500 (Failure "Required") ∧
  callToolRequest (two_tools 0) "browser_navigate" empty_object
  = mkResult [mkContent "text" (Some "ZodError: Required")] true.
Proof.
  destruct (tool_failure_text (two_tools 0) "browser_navigate" empty_object
              navigate_tool eq_refl) as [Hthrows _].
  apply (Hthrows "ZodError" "Required"); by vm_compute.
Defined.

(** X3: The specification of [GET /openapi.json] has a path exactly for the
    names that [callTool] finds a tool for, [/tools/<name>]; a POST for a
    name without a path is answered [Tool "<name>" not found]. *)
Theorem discovery_lists_the_callable_tools
  (version : string) (port : N) (tools : list Tool) :
  (∀ p, is_Some (paths (openApiSpec version port tools) !! p) ↔
        ∃ n, p = "/tools/" +:+ n ∧ is_Some (find_tool tools n)) ∧
  (∀ n args, paths (openApiSpec version port tools) !! ("/tools/" +:+ n) = None →
     call_route tools n args = mkResponse 500 (Failure (not_found n))).
Proof.
  assert (∀ p, is_Some (paths (openApiSpec version port tools) !! p) ↔
               ∃ n, p = "/tools/" +:+ n ∧ is_Some (find_tool tools n)) as Hiff.
  { intros p. unfold openApiSpec. simpl. split.
    - intros [op Hop]. apply foldl_add_path_Some in Hop as [Hop|Hop].
      { by rewrite lookup_empty in Hop. }
      destruct Hop as (schema' & Hin & -> & _).
      apply list_elem_of_fmap in Hin as (tool & -> & Hin).
      exists (name (schema tool)). split; [done|].
      apply find_tool_is_Some. by exists tool.
    - intros (n & -> & Hfind). apply find_tool_is_Some in Hfind as (tool & Hin & <-).
      apply (foldl_add_path_is_Some _ ∅ (schema tool)).
      apply list_elem_of_fmap. by exists tool. }
  split; [exact Hiff|].
  intros n args Hnone. unfold call_route, callTool.
  destruct (find_tool tools n) as [tool|] eqn:Hfind.
  - assert (is_Some (paths (openApiSpec version port tools) !! ("/tools/" +:+ n)))
      as [op Hop] by (apply Hiff; exists n; by rewrite Hfind).
    congruence.
  - by destruct (message_of_new_Error (not_found n)) as [-> _];
      rewrite decide_False by (unfold not_found; by rewrite append_cons).
Qed.

Lemma discovery_lists_the_callable_tools_witness :
  is_Some (paths (openApiSpec "0.0.10" 8080 (two_tools 0)) !! "/tools/browser_navigate") ∧
  call_route (two_tools 0) "browser_click" empty_object
  = mkResponse 500 (Failure (not_found "browser_click")).
Proof.
  destruct (discovery_lists_the_callable_tools "0.0.10" 8080 (two_tools 0))
    as [Hiff Hnone].
  split.
  - apply Hiff. exists "browser_navigate". split; [done|]. by eexists.
  - apply Hnone. by vm_compute.
Defined.

(** X4: Every operation of the specification is the one of a registered
    tool: its path is [/tools/<operationId>]; it is a GET for
    [browser_tab_list] and a POST for every other tool; a GET has no
    request body; its summary is not empty; and a request body carries
    the input schema of the tool without [$schema], required when the
    schema requires a field. *)
Theorem listed_operations_are_well_formed
  (version : string) (port : N) (tools : list Tool) (p : string) (op : Operation) :
  paths (openApiSpec version port tools) !! p = Some op →
  p = "/tools/" +:+ operationId op ∧
  is_Some (find_tool tools (operationId op)) ∧
  (op_method op = get ↔ operationId op = "browser_tab_list") ∧
  (op_method op = get → requestBody op = None) ∧
  summary op ≠ EmptyString ∧
  (∀ rb, requestBody op = Some rb →
     get_field "$schema" (rb_schema rb) = None ∧
     ∃ tool inputSchema,
       tool ∈ tools ∧ name (schema tool) = operationId op ∧
       Dispatch.inputSchema (schema tool) = Some inputSchema ∧
       rb_required rb = isRequired inputSchema ∧
       ∀ f, f ≠ "$schema" → get_field f (rb_schema rb) = get_field f inputSchema).
Proof.
  unfold openApiSpec. simpl. intros [Hop|Hop]%foldl_add_path_Some.
  { by rewrite lookup_empty in Hop. }
  destruct Hop as (schema' & Hin & -> & ->).
  apply list_elem_of_fmap in Hin as (tool & -> & Hin).
  unfold operation_of. simpl. split_and!.
  - done.
  - apply find_tool_is_Some. by exists tool.
  - case_bool_decide; split; done.
  - case_bool_decide; [|done]. intros _. simpl.
    by destruct (Dispatch.inputSchema (schema tool)).
  - apply or_default_nonempty. by rewrite append_cons.
  - intros rb.
    destruct (Dispatch.inputSchema (schema tool)) as [inputSchema|] eqn:E; [|done].
    destruct (negb _ && _); [|done]. intros [= <-]. simpl.
    destruct (get_field_schemaForRequestBody inputSchema) as [Hnone Hother].
    split; [done|]. by exists tool, inputSchema.
Qed.

Lemma listed_operations_are_well_formed_witness :
  requestBody
    (mkOperation post "Navigate to a URL" "browser_navigate"
       (Some (mkBody true
                [("type", JStr "object");
                 ("properties", JObj [("url", JObj [("type", JStr "string")])]);
                 ("required", JArr [JStr "url"])])))
  ≠ None ∧
  is_Some (find_tool (two_tools 0) "browser_navigate").
Proof.
  split; [done|].
  apply (listed_operations_are_well_formed "0.0.10" 8080 (two_tools 0)
           "/tools/browser_navigate"
           (mkOperation post "Navigate to a URL" "browser_navigate"
              (Some (mkBody true
                       [("type", JStr "object");
                        ("properties", JObj [("url", JObj [("type", JStr "string")])]);
                        ("required", JArr [JStr "url"])])))).
  by vm_compute.
Defined.


End DispatchFacts.

(** ** The tool [browser_extract_content] *)

Module ExtractFacts.

Import Js Dispatch ExtractContent HttpServer Views StringFacts DispatchFacts Examples.

Lemma has_blank_run_other (c : ascii) (s : string) :
  c ≠ nl → has_blank_run (String c s) = has_blank_run s.
Proof.
  intros Hc. destruct s as [|b [|d s]]; try done.
  cbn [has_blank_run]. by rewrite (bool_decide_eq_false_2 (c = nl)).
Qed.

Lemma has_blank_run_tail (c : ascii) (s : string) :
  has_blank_run (String c s) = false → has_blank_run s = false.
Proof.
  destruct s as [|b [|d s]]; try done.
  cbn [has_blank_run]. by intros [_ ?]%orb_false_iff.
Qed.

Lemma has_blank_run_newline_other (c : ascii) (s : string) :
  c ≠ nl → has_blank_run (String nl (String c s)) = has_blank_run s.
Proof.
  intros Hc. rewrite <- (has_blank_run_other c s Hc). destruct s as [|d s]; [done|].
  cbn [has_blank_run]. by rewrite (bool_decide_eq_false_2 (c = nl)), andb_false_r.
Qed.

Lemma has_blank_run_two_newlines_other (c : ascii) (s : string) :
  c ≠ nl → has_blank_run (String nl (String nl (String c s))) = has_blank_run s.
Proof.
  intros Hc. rewrite <- (has_blank_run_newline_other c s Hc).
  cbn [has_blank_run]. by rewrite (bool_decide_eq_false_2 (c = nl)), andb_false_r.
Qed.

(** A run that was replaced, before a character that is no newline. *)
Lemma has_blank_run_replace_run (run : nat) (c : ascii) (s : string) :
  c ≠ nl → has_blank_run (replace_run run +:+ String c s) = has_blank_run s.
Proof.
  intros Hc. unfold replace_run. case_decide.
  - by apply has_blank_run_two_newlines_other.
  - destruct run as [|[|[|run]]]; [| | |lia]; cbn [newlines];
      rewrite ?append_cons.
    + by apply has_blank_run_other.
    + by apply has_blank_run_newline_other.
    + by apply has_blank_run_two_newlines_other.
Qed.

Lemma replace_from_no_blank_run (run : nat) (s : string) :
  has_blank_run (replace_from run s) = false.
Proof.
  revert run. induction s as [|c s IH]; intros run.
  - simpl. unfold replace_run. case_decide; [done|].
    by destruct run as [|[|[|run]]]; [| | |lia].
  - simpl. case_decide; [apply IH|].
    rewrite has_blank_run_replace_run by done. apply IH.
Qed.

Lemma newlines_snoc (run : nat) (s : string) :
  newlines run +:+ String nl s = newlines (S run) +:+ s.
Proof.
  induction run as [|run IH]; [done|].
  cbn [newlines]. rewrite !append_cons. by rewrite IH.
Qed.

Lemma has_blank_run_newlines (run : nat) (s : string) :
  3 ≤ run → has_blank_run (newlines run +:+ s) = true.
Proof.
  intros Hrun. destruct run as [|[|[|run]]]; [lia..|].
  cbn [newlines]. rewrite !append_cons. cbn [has_blank_run].
  by rewrite !bool_decide_eq_true_2.
Qed.

Lemma has_blank_run_suffix (run : nat) (s : string) :
  has_blank_run (newlines run +:+ s) = false → has_blank_run s = false.
Proof.
  induction run as [|run IH]; [done|].
  cbn [newlines]. rewrite append_cons. intros H%has_blank_run_tail. by apply IH.
Qed.

Lemma replace_from_unchanged (run : nat) (s : string) :
  has_blank_run (newlines run +:+ s) = false →
  replace_from run s = newlines run +:+ s.
Proof.
  revert run. induction s as [|c s IH]; intros run Hno.
  - simpl. unfold replace_run. case_decide as Hrun; [|by rewrite append_nil_r].
    by rewrite (has_blank_run_newlines run EmptyString Hrun) in Hno.
  - simpl. case_decide as Hc.
    + subst c. rewrite newlines_snoc. apply IH. by rewrite <- newlines_snoc.
    + unfold replace_run. case_decide as Hrun.
      { by rewrite (has_blank_run_newlines run _ Hrun) in Hno. }
      f_equal. f_equal. apply (IH 0).
      apply has_blank_run_suffix in Hno. by apply has_blank_run_tail in Hno.
Qed.

(** X5: [markdown.replace(/\n{3,}/g, '\n\n')] leaves no three newlines in a
    row; it changes nothing in a text that has none; and so it is
    idempotent. *)
Theorem collapse_newlines_leaves_no_blank_run (markdown : string) :
  has_blank_run (collapse_newlines markdown) = false ∧
  (has_blank_run markdown = false → collapse_newlines markdown = markdown) ∧
  collapse_newlines (collapse_newlines markdown) = collapse_newlines markdown.
Proof.
  pose proof (replace_from_no_blank_run 0 markdown) as Hno.
  split_and!.
  - exact Hno.
  - intros H. by apply (replace_from_unchanged 0).
  - by apply (replace_from_unchanged 0).
Qed.

Example collapse_newlines_example :
  collapse_newlines ("a" +:+ newlines 4 +:+ "b" +:+ newlines 2 +:+ "c" +:+ newlines 3)
  = "a" +:+ newlines 2 +:+ "b" +:+ newlines 2 +:+ "c" +:+ newlines 2.
Proof. reflexivity. Qed.

(** A tool whose handler ends in the [catch] of [handle], over HTTP. *)
Lemma route_of_failed (tools : list Tool) (n : string) (args : Json) (tool : Tool)
  (url : string) (error : Thrown) :
  find_tool tools n = Some tool →
  Dispatch.handle tool args = failed url error →
  call_route tools n args
  = mkResponse 500
      (Failure ("<error>Failed to extract content from " +:+ url +:+ ": "
                +:+ template_message error +:+ "</error>")).
Proof.
  intros Hfind Hhandle. unfold call_route, callTool. rewrite Hfind, Hhandle.
  unfold failed. cbn [isError].
  match goal with
  | |- context [errorContent (mkResult [mkContent "text" (Some ?t)] true)] =>
      change (errorContent (mkResult [mkContent "text" (Some t)] true)) with (Some t);
      assert (t ≠ EmptyString) as Ht by (by rewrite append_cons)
  end.
  cbn [or_default]. unfold or_string. rewrite decide_False by done.
  unfold new_Error. by rewrite !message_of_Error.
Qed.

(** X6: How [browser_extract_content] fails over the HTTP API, for
    parameters that parse and a tab that opens: a navigation that throws
    and a page without HTML are answered 500 with
    [<error>Failed to extract content from <url>: <message></error>];
    but when the processing of the HTML throws, the answer is a success,
    200, whose text is
    [<error>Error processing HTML content: <message></error>]. *)
Theorem extract_content_failures
  (parse : option Json → string + Thrown) (ensureTab : Page + Thrown)
  (readability : string → string → option string + Thrown)
  (turndown : string → string + Thrown) (trim : string → string)
  (inputSchema : list (string * Json))
  (tools : list Tool) (args : Json) (url : string) (page : Page) :
  find_tool tools "browser_extract_content"
  = Some (extractContent parse ensureTab readability turndown trim inputSchema) →
  parse (Some args) = inl url →
  ensureTab = inl page →
  let answer := call_route tools "browser_extract_content" args in
  let failure message :=
    mkResponse 500
      (Failure ("<error>Failed to extract content from " +:+ url +:+ ": "
                +:+ message +:+ "</error>")) in
  (∀ error, goto page url = Some error → answer = failure (template_message error)) ∧
  (goto page url = None → ∀ error, page_content page = inr error →
     answer = failure (template_message error)) ∧
  (goto page url = None → page_content page = inl EmptyString →
     answer = failure "Failed to retrieve HTML content from the page.") ∧
  (goto page url = None → ∀ html, page_content page = inl html → html ≠ EmptyString →
     answer
     = mkResponse 200
         (Success (mkResult
                     [mkContent "text"
                        (Some (processHtmlContent readability turndown trim html url))]
                     false)) ∧
     (∀ error, readability html url = inr error →
        processHtmlContent readability turndown trim html url
        = "<error>Error processing HTML content: " +:+ template_message error
            +:+ "</error>")).
Proof.
  intros Hfind Hparse Htab answer failure. subst answer failure.
  set (tool := extractContent parse ensureTab readability turndown trim inputSchema)
    in *.
  assert (Dispatch.handle tool args
          = ExtractContent.handle parse ensureTab readability turndown trim (Some args))
    as Hhandle by reflexivity.
  unfold handle in Hhandle. rewrite Hparse, Htab in Hhandle.
  split_and!.
  - intros error Hgoto. rewrite Hgoto in Hhandle.
    by apply (route_of_failed tools _ args tool).
  - intros Hgoto error Hcontent. rewrite Hgoto, Hcontent in Hhandle.
    by apply (route_of_failed tools _ args tool).
  - intros Hgoto Hcontent. rewrite Hgoto, Hcontent in Hhandle.
    rewrite decide_True in Hhandle by done.
    by apply (route_of_failed tools _ args tool url
                (new_Error "Failed to retrieve HTML content from the page.")).
  - intros Hgoto html Hcontent Hhtml. rewrite Hgoto, Hcontent in Hhandle.
    rewrite decide_False in Hhandle by done. split.
    + unfold call_route, callTool. by rewrite Hfind, Hhandle.
    + intros error Herror. unfold processHtmlContent. by rewrite Herror.
Qed.

Lemma extract_content_failures_witness :
  call_route [extract_tool] "browser_extract_content"
    (JObj [("url", JStr "https://down.example")])
  = mkResponse 500
      (Failure "<error>Failed to extract content from https://down.example: net::ERR_CONNECTION_REFUSED</error>").
Proof.
  destruct (extract_content_failures parse_url (inl small_web) (λ _ _, inl None) inl id
              [("type", JStr "object")] [extract_tool]
              (JObj [("url", JStr "https://down.example")])
              "https://down.example" small_web eq_refl eq_refl eq_refl)
    as (Hgoto & _).
  apply (Hgoto (ThrownError "Error" "net::ERR_CONNECTION_REFUSED")). reflexivity.
Defined.


End ExtractFacts.

(** ** The registry, further *)

Module RegistryFacts.

Import Js ServerList ServerListFacts Views Examples.

Lemma splice_indexOf_subseteq (s x : Server) (l : list Server) :
  x ∈ splice_indexOf s l → x ∈ l.
Proof.
  induction l as [|y l IH]; simpl; [done|]. case_decide.
  - intros ?. by right.
  - intros [->|?]%elem_of_cons; [by left|]. right. by apply IH.
Qed.

Lemma splice_indexOf_NoDup_keeps (s : Server) (l : list Server) :
  NoDup l → NoDup (splice_indexOf s l).
Proof.
  induction 1 as [|y l Hy Hl IH]; simpl; [constructor|]. case_decide; [done|].
  constructor; [|done]. intros Hin. apply Hy. by eapply splice_indexOf_subseteq.
Qed.

Lemma splice_indexOf_last (s : Server) (l : list Server) :
  s ∉ l → splice_indexOf s (l ++ [s]) = l.
Proof.
  induction l as [|y l IH]; simpl; intros Hnot.
  - by rewrite decide_True.
  - rewrite decide_False by (intros ->; apply Hnot; by left).
    f_equal. apply IH. intros ?. apply Hnot. by right.
Qed.

Lemma distinct_fresh (sl : t) : distinct sl → next_server sl ∉ _servers sl.
Proof. intros [_ Hlt] Hin. apply Hlt in Hin. lia. Qed.

Lemma distinct_create (sl : t) : distinct sl → distinct (create sl).1.
Proof.
  intros [Hnd Hlt]. split; simpl.
  - apply NoDup_app. split_and!; [done| |apply NoDup_singleton].
    intros x Hx ->%list_elem_of_singleton. apply Hlt in Hx. lia.
  - intros x [Hx| ->%list_elem_of_singleton]%elem_of_app; [|lia].
    apply Hlt in Hx. lia.
Qed.

Lemma distinct_servers (sl sl' : t) :
  (∀ x, x ∈ _servers sl' → x ∈ _servers sl) → NoDup (_servers sl') →
  next_server sl' = next_server sl → distinct sl → distinct sl'.
Proof.
  intros Hsub Hnd Hnext [_ Hlt]. split; [done|].
  intros x Hx. rewrite Hnext. by apply Hlt, Hsub.
Qed.

Section WithRelease.

Variable release : list Server → Server → Promise.

Lemma distinct_close (server : Server) (sl : t) :
  distinct sl → distinct (close release server sl).1.
Proof.
  intros Hd. apply (distinct_servers sl); simpl; try done.
  - intros x. apply splice_indexOf_subseteq.
  - apply splice_indexOf_NoDup_keeps, Hd.
Qed.

Lemma closeAll_state (sl : t) :
  (closeAll release sl).1
  = mk (_servers sl) (next_server sl) (close_calls sl ++ _servers sl).
Proof.
  unfold closeAll.
  pose proof (map_close_calls release (_servers sl) (close_calls sl)) as Hcalls.
  destruct (map_close release _ _) as [calls ps]. simpl in *. by subst.
Qed.

(** X7: The servers of the registry stay distinct: the registry starts
    without servers, and from distinct servers [create] adds a server
    that is not in the list, and [close] and [closeAll] leave distinct
    servers. *)
Theorem registry_servers_stay_distinct (sl : t) :
  distinct sl →
  distinct (create sl).1 ∧
  ((create sl).2 ∉ _servers sl) ∧
  (∀ server, distinct (close release server sl).1) ∧
  distinct (closeAll release sl).1.
Proof.
  intros Hd. split_and!.
  - by apply distinct_create.
  - by apply distinct_fresh.
  - intros server. by apply distinct_close.
  - rewrite closeAll_state. by destruct Hd.
Qed.

(** X8: Creating a server and closing it gives back the list of servers
    there was, with one call of [server.close()] more, whose promise is
    what [close] answers. *)
Theorem create_then_close_restores_servers (sl : t) :
  distinct sl →
  let server := (create sl).2 in
  let sl' := (close release server (create sl).1).1 in
  _servers sl' = _servers sl ∧
  close_calls sl' = close_calls sl ++ [server] ∧
  (close release server (create sl).1).2 = release (close_calls sl) server ∧
  distinct sl'.
Proof.
  intros Hd server sl'. subst server sl'. split_and!; try done.
  - simpl. by apply splice_indexOf_last, distinct_fresh.
  - by apply distinct_close, distinct_create.
Qed.

(** X9: [closeAll()] on a registry without servers is fulfilled at once and
    changes nothing; [closeAll()] never settles exactly when no release
    fails and one release never settles. *)
Theorem closeAll_hangs_with_a_release (sl : t) :
  let ps := (map_close release (_servers sl) (close_calls sl)).2 in
  (_servers sl = [] → closeAll release sl = (sl, FulfilledAt 0)) ∧
  ((closeAll release sl).2 = Pending ↔
   (∀ t e, RejectedAt t e ∉ ps) ∧ Pending ∈ ps).
Proof.
  intros ps. split.
  - intros Hnil. destruct sl as [servers next calls]. simpl in Hnil. subst servers.
    reflexivity.
  - subst ps. unfold closeAll.
    destruct (map_close release _ _) as [calls ps]. simpl. unfold Promise_all.
    destruct (first_rejection ps) as [[t e]|] eqn:Hrej.
    + split; [done|]. intros [Hno _]. apply first_rejection_Some in Hrej as [Hin _].
      by destruct (Hno t e).
    + pose proof (proj1 (first_rejection_None ps) Hrej) as Hno. clear Hrej.
      rename Hno into Hrej.
      destruct (all_fulfilled ps) as [t|] eqn:Hful.
      * split; [done|]. intros [_ Hin].
        by destruct (all_fulfilled_Some _ _ Hful _ Hin) as (? & ? & _).
      * split; [|done]. intros _. split; [done|].
        apply all_fulfilled_None in Hful as (p & Hin & Hp).
        destruct p as [|t|t e]; [done|by destruct (Hp t)|by destruct (Hrej t e)].
Qed.

End WithRelease.

Lemma registry_servers_stay_distinct_witness :
  distinct two_servers ∧
  distinct (create two_servers).1 ∧
  distinct (close release_ok 0 two_servers).1.
Proof.
  assert (distinct two_servers) as Hd.
  { split.
    - apply (bool_decide_unpack _). by vm_compute.
    - intros x Hx. simpl in *.
      apply elem_of_cons in Hx as [->|Hx]; [lia|].
      apply elem_of_cons in Hx as [->|Hx]; [lia|].
      by apply elem_of_nil in Hx. }
  destruct (registry_servers_stay_distinct release_ok two_servers Hd)
    as (Hcreate & _ & Hclose & _).
  split_and!; [exact Hd|exact Hcreate|exact (Hclose 0)].
Defined.

Lemma create_then_close_restores_servers_witness :
  distinct empty ∧
  _servers (close release_ok 0 (create empty).1).1 = [].
Proof.
  assert (distinct empty) as Hd.
  { split; [constructor|]. by intros x ?%elem_of_nil. }
  split; [exact Hd|].
  by destruct (create_then_close_restores_servers release_ok empty Hd) as [H _].
Defined.

End RegistryFacts.

(** ** The program, further *)

Module ProgramFacts.

Import Js Program Options Views StringFacts Examples.

Lemma profileSuffix_eq (s1 s2 : option string) :
  profileSuffix s1 = profileSuffix s2 ↔
  (profileSuffix s1 = EmptyString ∧ profileSuffix s2 = EmptyString) ∨ s1 = s2.
Proof.
  split; [|by intros [[-> ->]| ->]].
  unfold profileSuffix. intros Heq.
  destruct s1 as [k1|], s2 as [k2|]; repeat case_decide; try (by left);
    try (rewrite append_cons in Heq; discriminate).
  right. apply append_cancel_l in Heq. by subst.
Qed.

Lemma profileSuffix_plain (s : option string) :
  profileSuffix s = EmptyString ↔
  s = None ∨ s = Some EmptyString ∨ s = Some "default".
Proof.
  unfold profileSuffix. destruct s as [k|]; [|by split; [left|]].
  repeat case_decide; subst; split; try done; try by auto.
  - by intros [?|[[= ?]|[= ?]]].
Qed.

(** X10: Two sessions get a profile directory of the same name exactly when
    they are for the same browser and either have the same session
    identifier or are both without one of their own (none, the empty one
    or ["default"]). *)
Theorem profile_names_separate_sessions
  (b1 b2 : BrowserName) (s1 s2 : option string) :
  profileDirName b1 s1 = profileDirName b2 s2 ↔
  b1 = b2 ∧
  (s1 = s2 ∨
   ((s1 = None ∨ s1 = Some EmptyString ∨ s1 = Some "default") ∧
    (s2 = None ∨ s2 = Some EmptyString ∨ s2 = Some "default"))).
Proof.
  split.
  - intros Heq.
    assert (b1 = b2 ∧ profileSuffix s1 = profileSuffix s2) as [-> Hsuffix].
    { revert Heq. unfold profileDirName.
      destruct b1, b2; cbv -[profileSuffix]; intros [= H]; done. }
    split; [done|]. apply profileSuffix_eq in Hsuffix as [[H1 H2]|H]; [|by left].
    right. by rewrite <- !profileSuffix_plain.
  - intros [-> [-> | [H1 H2]]]; [done|].
    apply profileSuffix_plain in H1, H2. unfold profileDirName. by rewrite H1, H2.
Qed.

(** X11: The browser of the command line: only [firefox] and [webkit] select
    these browsers; every other value, the Chrome and Edge channels and
    unknown names among them, selects Chromium, so that with any of them
    a session gets the same profile directory. *)
Theorem chrome_and_edge_share_the_chromium_profile
  (pr : Process) (sessionId : option string) :
  (∀ b, (browser_of b).1 = firefox ↔ b = Some "firefox") ∧
  (∀ b, (browser_of b).1 = webkit ↔ b = Some "webkit") ∧
  (∀ b, b ∈ channels → browser_of (Some b) = (chromium, Some b)) ∧
  (∀ b1 b2, b1 ≠ Some "firefox" → b1 ≠ Some "webkit" →
            b2 ≠ Some "firefox" → b2 ≠ Some "webkit" →
     serverFactory pr (browser_of b1).1 None sessionId
     = serverFactory pr (browser_of b2).1 None sessionId).
Proof.
  assert (∀ b, (browser_of b).1 = firefox ↔ b = Some "firefox") as Hfirefox.
  { intros [b|]; [|done]. unfold browser_of. split.
    - repeat case_decide; try done. by subst.
    - intros [= ->]. by vm_compute. }
  assert (∀ b, (browser_of b).1 = webkit ↔ b = Some "webkit") as Hwebkit.
  { intros [b|]; [|done]. unfold browser_of. split.
    - repeat case_decide; try done. by subst.
    - intros [= ->]. by vm_compute. }
  assert (∀ b, b ≠ Some "firefox" → b ≠ Some "webkit" → (browser_of b).1 = chromium)
    as Hchromium.
  { intros b H1 H2. destruct (browser_of b).1 eqn:E; [done|..].
    - by apply Hfirefox in E.
    - by apply Hwebkit in E. }
  split_and!; [done|done| |].
  - intros b Hb. unfold browser_of. by rewrite decide_True.
  - intros b1 b2 ? ? ? ?. by rewrite !Hchromium.
Qed.

(** X12: [createUserDataDir] fails in two cases only: on a platform that is
    not Linux, macOS or Windows, with [Unsupported platform: <platform>]
    and without making a directory, and when [mkdir] fails, with the
    error of [mkdir]; with [--user-data-dir] the factory never calls it,
    and answers that directory for every session. *)
Theorem createUserDataDir_fails_on_platform_or_mkdir
  (pr : Process) (browserName : BrowserName) (sessionId : option string) :
  (∀ error, createUserDataDir pr browserName sessionId = inr error ↔
     (cacheDirectory pr = None ∧
      error = new_Error ("Unsupported platform: " +:+ platform_string (platform pr))) ∨
     (∃ cache, cacheDirectory pr = Some cache ∧
        mkdir pr (join pr
                    [cache; "ms-playwright"; profileDirName browserName sessionId])
        = Some error)) ∧
  (cacheDirectory pr = None ↔ ∃ name, platform pr = other_platform name) ∧
  (∀ dir, serverFactory pr browserName (Some dir) sessionId = inl dir).
Proof.
  split_and!.
  - intros error. unfold createUserDataDir.
    destruct (cacheDirectory pr) as [cache|].
    + destruct (mkdir pr _) as [e|] eqn:E.
      * split.
        -- intros [= ->]. right. by exists cache.
        -- intros [[? _]|(c & [= <-] & Hmk)]; [done|]. congruence.
      * split; [done|]. intros [[? _]|(c & [= <-] & Hmk)]; [done|]. congruence.
    + split.
      * intros [= <-]. by left.
      * intros [[_ ->]|(c & ? & _)]; done.
  - unfold cacheDirectory. destruct (platform pr); split; try done.
    + by intros [? ?].
    + by intros [? ?].
    + by intros [? ?].
    + intros _. by eexists.
  - done.
Qed.

End ProgramFacts.

(** ** Exit, further *)

Module ExitFacts.

Import Js Program Views Examples.

Section WithRelease.

Variable release : list Server → Server → Promise.

Lemma handleExit_state (sl : ServerList.t) :
  (handleExit release sl).1 = (ServerList.closeAll release sl).1.
Proof.
  unfold handleExit. destruct (ServerList.closeAll release sl) as [sl' [|d|d e]];
    repeat case_decide; done.
Qed.

(** X13: The exit of [handleExit]: with code 1 exactly when [closeAll()] is
    rejected within 15 seconds, at that time; with code 0 otherwise, when
    [closeAll()] is fulfilled or after 15 seconds, whichever is first. *)
Theorem handleExit_exit_code (sl : ServerList.t) :
  let p := (ServerList.closeAll release sl).2 in
  let exit := (handleExit release sl).2 in
  (exit.2 = 1 ↔ ∃ d e, p = RejectedAt d e ∧ (d < 15000)%N) ∧
  (exit.2 ≠ 1 → exit.2 = 0) ∧
  (∀ d, p = FulfilledAt d → exit = (N.min d 15000, 0)) ∧
  (∀ d e, p = RejectedAt d e → exit.1 = N.min d 15000) ∧
  (p = Pending → exit = (15000%N, 0)).
Proof.
  intros p exit. subst p exit. unfold handleExit, watchdog_delay.
  destruct (ServerList.closeAll release sl) as [sl' [|d|d e]]; simpl;
    repeat case_decide; simpl; split_and!; try split; intros;
    repeat match goal with
           | H : ∃ _, _ |- _ => destruct H
           | H : _ ∧ _ |- _ => destruct H
           end; simplify_eq; try done; try lia;
    try (f_equal; lia); try (by eexists _, _).
Qed.

(** X14: The exit of [gracefulShutdown]: with code 0 exactly when the HTTP
    server closed without error and the closing of the sessions settled,
    all within 15 seconds; that a session failed to close does not
    change the code.  In every other case the process exits with code
    1. *)
Theorem gracefulShutdown_exit_code (closed : option (N * bool)) (w : HttpServer.World) :
  let p := (HttpServer.close_sessions release w).2 in
  let exit := (HttpServer.gracefulShutdown release closed w).2 in
  (exit.2 = 0 ↔
   ∃ t d, closed = Some (t, false) ∧
          (p = FulfilledAt d ∨ ∃ e, p = RejectedAt d e) ∧
          (t + d < 15000)%N ∧ exit.1 = (t + d)%N) ∧
  (exit.2 ≠ 0 → exit.2 = 1) ∧
  (closed = None → exit = (15000%N, 1)).
Proof.
  intros p exit. subst p exit.
  unfold HttpServer.gracefulShutdown, HttpServer.force_exit_delay.
  destruct (HttpServer.close_sessions release w) as [w' [|d|d e]];
    destruct closed as [[t [|]]|]; simpl;
    repeat case_decide; simpl; split_and!; try split; intros;
    repeat match goal with
           | H : ∃ _, _ |- _ => destruct H
           | H : _ ∧ _ |- _ => destruct H
           | H : _ ∨ _ |- _ => destruct H
           end; simplify_eq; try done; try lia;
    try (eexists _, _; split_and!; [done| |done|done]; by eauto).
Qed.

(** X15: A signal to a process that serves the HTTP API, when the HTTP
    server closes before [handleExit] ends the process: [closeAll()] has
    called [close()] on every server of the registry, and the callback of
    [gracefulShutdown] calls it again on the server of every session. *)
Theorem signal_closes_session_servers_twice
  (e : ExitEvent) (t : N) (err : bool) (w : HttpServer.World) :
  gracefulShutdown_listens e = true →
  (t < (handleExit release (HttpServer.serverList w)).2.1)%N →
  let w' := (on_exit_event release true e (Some (t, err)) w).1 in
  ServerList.close_calls (HttpServer.serverList w')
  = ServerList.close_calls (HttpServer.serverList w)
    ++ ServerList._servers (HttpServer.serverList w)
    ++ (map_to_list (HttpServer.sessions w)).*2 ∧
  HttpServer.sessions w' = ∅.
Proof.
  intros Hlistens Ht w'. subst w'. unfold on_exit_event.
  pose proof (handleExit_state (HttpServer.serverList w)) as Hstate.
  pose proof (ProgramClaims.handleExit_in_time release (HttpServer.serverList w))
    as Hbound.
  rewrite RegistryFacts.closeAll_state in Hstate.
  destruct (handleExit release (HttpServer.serverList w)) as [sl exit1].
  simpl in Hstate, Ht, Hbound. subst sl. rewrite Hlistens. cbn [andb].
  match goal with
  | |- context [HttpServer.gracefulShutdown release _ ?w1] =>
      assert ((HttpServer.gracefulShutdown release (Some (t, err)) w1).1
              = (HttpServer.close_sessions release w1).1) as Hw2;
      [unfold HttpServer.gracefulShutdown, HttpServer.force_exit_delay;
       rewrite (decide_True (P := (t < 15000)%N)) by lia;
       destruct (HttpServer.close_sessions release w1) as [? [| |]];
       repeat case_decide; done|];
      pose proof (ProgramClaims.close_session_calls release (w1, [])
                    (map_to_list (HttpServer.sessions w1))) as Hcalls;
      destruct (HttpServer.gracefulShutdown release (Some (t, err)) w1)
        as [w2 exit2]
  end.
  simpl in Hw2. subst w2.
  assert (∀ x, (if decide (exit2.1 < exit1.1)%N
                then (x, exit2)
                else if decide (t < exit1.1)%N then (x, exit1)
                     else (HttpServer.set_serverList
                             (λ _, ServerList.mk
                                     (ServerList._servers (HttpServer.serverList w))
                                     (ServerList.next_server (HttpServer.serverList w))
                                     (ServerList.close_calls (HttpServer.serverList w)
                                      ++ ServerList._servers (HttpServer.serverList w)))
                             w, exit1)).1 = x) as Hpick.
  { intros x. repeat case_decide; done. }
  rewrite Hpick. unfold HttpServer.close_sessions.
  destruct (foldl _ _ _) as [w3 ps]. simpl in *.
  split; [|done]. by rewrite Hcalls, <- app_assoc.
Qed.

End WithRelease.

Lemma signal_closes_session_servers_twice_witness :
  let w :=
    HttpServer.run release_ok HttpServer.init
      [HttpServer.Arrives "s"; HttpServer.Created "s"] in
  gracefulShutdown_listens SIGINT = true ∧
  ServerList.close_calls
    (HttpServer.serverList (on_exit_event release_ok true SIGINT (Some (5%N, false)) w).1)
  = [0; 0].
Proof.
  intros w. split; [done|].
  assert (5 < (handleExit release_ok (HttpServer.serverList w)).2.1)%N as Ht
    by by vm_compute.
  destruct (signal_closes_session_servers_twice release_ok SIGINT 5 false w
              eq_refl Ht) as [Hcalls _].
  rewrite Hcalls. by vm_compute.
Defined.

End ExitFacts.

(** ** The SSE server, further *)

Module SseFacts.

Import Js Program Views Examples.

Section WithRelease.

Variable release : list Server → Server → Promise.

(** The state after an accepted GET whose server was created. *)
Lemma sse_connected (st : Sse) (sessionId : string) :
  foldl (step release) st [Arrives (GET sessionId); Created (next_transport st)]
  = mkSse (ServerList.create (serverList st)).1
      (<[sessionId := next_transport st]> (sessions st))
      (S (next_transport st))
      (delete (next_transport st)
         (<[next_transport st := sessionId]> (accepting st)))
      (<[next_transport st := (sessionId, ServerList.next_server (serverList st))]>
         (on_close st))
      (closed st).
Proof.
  cbn [foldl step handler fst]. unfold handler_created.
  cbn [accepting]. by rewrite lookup_insert_eq.
Qed.

(** X16: A connection from its GET to its close: the session and the server
    it had are gone, the sessions and the servers of the others are as
    they were, [server.close()] was called once, on its server, and a
    later POST for its session is answered 404. *)
Theorem sse_connection_round_trip (st : Sse) (sessionId : string) :
  distinct (serverList st) →
  sessions st !! sessionId = None →
  next_transport st ∉ closed st →
  sessionId ≠ EmptyString →
  let transport := next_transport st in
  let st' :=
    foldl (step release) st
      [Arrives (GET sessionId); Created transport; Closes transport] in
  sessions st' = sessions st ∧
  ServerList._servers (serverList st') = ServerList._servers (serverList st) ∧
  ServerList.close_calls (serverList st')
  = ServerList.close_calls (serverList st)
    ++ [ServerList.next_server (serverList st)] ∧
  distinct (serverList st') ∧
  handler (POST (Some sessionId)) st' = (st', Status 404 "Session not found") ∧
  connection_closes release transport st' = st'.
Proof.
  intros Hd Hnone Hopen Hne transport st'. subst transport st'.
  change [Arrives (GET sessionId); Created (next_transport st);
          Closes (next_transport st)]
    with ([Arrives (GET sessionId); Created (next_transport st)]
          ++ [Closes (next_transport st)]).
  rewrite foldl_app, sse_connected. cbn [foldl step].
  match goal with
  | |- context [connection_closes release ?tr ?x] =>
      assert (connection_closes release tr x
              = mkSse (ServerList.close release
                         (ServerList.next_server (serverList st)) (serverList x)).1
                  (delete sessionId (sessions x)) (next_transport x)
                  (accepting x) (on_close x) ({[tr]} ∪ closed x)) as Hclose;
      [unfold connection_closes; cbn [closed on_close];
       rewrite decide_False by done; by rewrite lookup_insert_eq|]
  end.
  rewrite Hclose. clear Hclose.
  cbn [serverList sessions ServerList.close fst ServerList.create
       ServerList._servers ServerList.close_calls ServerList.next_server].
  assert (delete sessionId (<[sessionId := next_transport st]> (sessions st))
          = sessions st) as Hsessions by by apply delete_insert_id.
  rewrite Hsessions.
  rewrite RegistryFacts.splice_indexOf_last by by apply RegistryFacts.distinct_fresh.
  split_and!; try done.
  - destruct Hd as [Hnd Hlt]. split; [done|]. simpl. intros x Hx%Hlt. lia.
  - cbn [handler sessions]. rewrite decide_False by done. by rewrite Hnone.
  - unfold connection_closes. cbn [closed]. rewrite decide_True; [done|].
    apply elem_of_union. left. by apply elem_of_singleton.
Qed.

(** X17: A connection that closes while its server is being created: the
    listener of ['close'] is set too late, so that afterwards the session
    is still in [sessions], the server is in the registry, no
    [close()] was called, and the close of the connection does nothing
    any more. *)
Theorem sse_early_close_keeps_the_session (st : Sse) (sessionId : string) :
  on_close st !! next_transport st = None →
  let transport := next_transport st in
  let st' :=
    foldl (step release) st
      [Arrives (GET sessionId); Closes transport; Created transport] in
  sessions st' !! sessionId = Some transport ∧
  ServerList._servers (serverList st')
  = ServerList._servers (serverList st) ++ [ServerList.next_server (serverList st)] ∧
  ServerList.close_calls (serverList st') = ServerList.close_calls (serverList st) ∧
  connection_closes release transport st' = st'.
Proof.
  intros Hfresh transport st'. subst transport st'.
  cbn [foldl step handler fst].
  match goal with
  | |- context [connection_closes release ?tr ?x] =>
      assert (∃ c, connection_closes release tr x
                   = mkSse (serverList x) (sessions x) (next_transport x)
                       (accepting x) (on_close x) c ∧ tr ∈ c) as (c & Hclose & Hc);
      [unfold connection_closes; cbn [closed on_close];
       destruct (decide (next_transport st ∈ closed st)) as [Hin|Hout];
       [by exists (closed st)|];
       rewrite Hfresh; eexists; split; [done|];
       apply elem_of_union; left; by apply elem_of_singleton|]
  end.
  rewrite Hclose. clear Hclose. unfold handler_created.
  cbn [accepting]. rewrite lookup_insert_eq.
  cbn [ServerList.create sessions serverList ServerList._servers
       ServerList.close_calls].
  rewrite lookup_insert_eq. split_and!; try done.
  unfold connection_closes. cbn [closed]. by rewrite decide_True.
Qed.

End WithRelease.

Lemma sse_connection_round_trip_witness :
  distinct (serverList sse_init) ∧
  sessions (foldl (step release_ok) sse_init
              [Arrives (GET "abc"); Created 0; Closes 0]) = ∅ ∧
  ServerList.close_calls
    (serverList (foldl (step release_ok) sse_init
                   [Arrives (GET "abc"); Created 0; Closes 0])) = [0].
Proof.
  assert (distinct (serverList sse_init)) as Hd.
  { split; [constructor|]. by intros x ?%elem_of_nil. }
  assert (next_transport sse_init ∉ closed sse_init) as Hopen
    by (apply (bool_decide_unpack _); by vm_compute).
  destruct (sse_connection_round_trip release_ok sse_init "abc" Hd eq_refl Hopen
              ltac:(done)) as (Hs & _ & Hcalls & _).
  split_and!; [exact Hd|exact Hs|exact Hcalls].
Defined.

Lemma sse_early_close_keeps_the_session_witness :
  sessions (foldl (step release_ok) sse_init
              [Arrives (GET "abc"); Closes 0; Created 0]) !! "abc" = Some 0 ∧
  ServerList.close_calls
    (serverList (foldl (step release_ok) sse_init
                   [Arrives (GET "abc"); Closes 0; Created 0])) = [].
Proof.
  destruct (sse_early_close_keeps_the_session release_ok sse_init "abc" eq_refl)
    as (Hs & _ & Hcalls & _).
  split; [exact Hs|exact Hcalls].
Defined.

End SseFacts.

(** ** The Request/Response adapter, further *)

Module SessionFacts.

Import Js HttpServer HttpFacts Views Examples.

(** The reset of the timeout of a session keeps the timeouts of
    [sessionTimers] armed. *)
Lemma reset_timeout_armed_all (k : string) (w : World) :
  live w ∨ (tracked w ∧
            ∀ k' timer, sessionTimers w !! k' = Some timer →
              ∃ due, timers w !! timer = Some (mkTimer k' due) ∧
                     (due ≤ now w + sessionTimeout)%N) →
  ∀ k' timer, sessionTimers (reset_timeout k w) !! k' = Some timer →
    ∃ due, timers (reset_timeout k w) !! timer = Some (mkTimer k' due) ∧
           (due ≤ now (reset_timeout k w) + sessionTimeout)%N.
Proof.
  intros Hw.
  assert (tracked w ∧
          ∀ k' timer, sessionTimers w !! k' = Some timer →
            ∃ due, timers w !! timer = Some (mkTimer k' due) ∧
                   (due ≤ now w + sessionTimeout)%N) as [[HA HB] HD].
  { destruct Hw as [(? & _ & _ & ?)|?]; done. }
  destruct (reset_timeout_frame k w) as (Hnow & _).
  destruct (reset_timeout_armed k w) as (Hst & Hnew).
  intros k' timer. rewrite Hst, Hnow.
  destruct (decide (k = k')) as [<-|Hne].
  - rewrite lookup_insert_eq. intros [= <-]. eexists. split; [done|]. lia.
  - rewrite lookup_insert_ne by done. intros Hk'.
    destruct (HD k' timer Hk') as (due & Harmed & Hdue).
    exists due. split; [|done].
    rewrite reset_timeout_others by (apply HB in Hk'; lia).
    case_decide as Hold; [|done].
    destruct (HD k timer Hold) as (due' & Harmed' & _). congruence.
Qed.

Lemma live_reset_timeout (k : string) (w : World) :
  live w → live (reset_timeout k w).
Proof.
  intros Hw. pose proof Hw as (Htracked & Hd & Hs & HD).
  destruct (reset_timeout_frame k w) as (_ & Hsl & Hsess & _).
  destruct (reset_timeout_armed k w) as (Hst & _).
  split_and!.
  - by apply reset_timeout_tracked.
  - by rewrite Hsl.
  - intros k' server. rewrite Hsess, Hsl, Hst. intros Hk'.
    destruct (Hs k' server Hk') as [Hin Htimer]. split; [done|].
    destruct (decide (k = k')) as [<-|Hne].
    + rewrite lookup_insert_eq. by eexists.
    + by rewrite lookup_insert_ne.
  - apply reset_timeout_armed_all. by left.
Qed.

(** [live] looks at the sessions, the registry, the timeouts and the
    clock. *)
Lemma live_ext (w w' : World) :
  now w' = now w → serverList w' = serverList w → sessions w' = sessions w →
  sessionTimers w' = sessionTimers w → timers w' = timers w →
  next_timer w' = next_timer w → live w → live w'.
Proof. unfold live, tracked. by intros -> -> -> -> -> ->. Qed.

Lemma live_init : live init.
Proof.
  split_and!.
  - apply tracked_init.
  - split; [constructor|]. by intros x ?%elem_of_nil.
  - intros k server. simpl. by rewrite lookup_empty.
  - intros k timer. simpl. by rewrite lookup_empty.
Qed.

Lemma live_middleware (k : string) (w : World) : live w → live (middleware k w).1.
Proof.
  intros Hw. unfold middleware. destruct (sessions w !! k); cbn [fst].
  - apply live_reset_timeout. by apply (live_ext w).
  - by apply (live_ext w).
Qed.

Lemma live_middleware_created (k : string) (w : World) :
  live w → live (middleware_created k w).1.
Proof.
  intros Hw. pose proof Hw as (Htracked & Hd & Hs & HD).
  unfold middleware_created. case_decide; [|done].
  unfold ServerList.create. cbn [fst].
  match goal with |- live (reset_timeout k ?x) => set (x0 := x) end.
  destruct (reset_timeout_frame k x0) as (_ & Hsl & Hsess & _).
  destruct (reset_timeout_armed k x0) as (Hst & _).
  assert (tracked x0) as Hx0 by by apply (tracked_ext w).
  split_and!.
  - by apply reset_timeout_tracked.
  - rewrite Hsl. by apply (RegistryFacts.distinct_create (serverList w)).
  - intros k' server. rewrite Hsess, Hsl, Hst. subst x0. simpl.
    destruct (decide (k = k')) as [<-|Hne].
    + rewrite !lookup_insert_eq. intros [= <-]. split; [|by eexists].
      apply elem_of_app. right. by apply list_elem_of_singleton.
    + rewrite !lookup_insert_ne by done. intros Hk'.
      destruct (Hs k' server Hk') as [Hin Htimer]. split; [|done].
      apply elem_of_app. by left.
  - apply reset_timeout_armed_all. right. split; [done|]. exact HD.
Qed.

Lemma live_advance (d : N) (w : World) : live w → live (advance d w).
Proof.
  intros (Htracked & Hd & Hs & HD). split_and!; try done.
  intros k timer Hk. destruct (HD k timer Hk) as (due & Harmed & Hdue).
  exists due. split; [done|]. simpl. lia.
Qed.

Section WithRelease.

Variable release : list Server → Server → Promise.

Lemma live_step (w : World) (e : Event) :
  request_event e = true → live w → live (step release w e).
Proof.
  destruct e as [k|k|k|timer|k|d]; intros He Hw; cbn [step].
  - by apply live_middleware.
  - by apply live_middleware_created.
  - exact Hw.
  - discriminate He.
  - discriminate He.
  - by apply live_advance.
Qed.

(** X19: As long as no timeout fires, whatever requests arrive and however
    their creations interleave, every session has its server in the
    registry and exactly one timeout armed, the one of [sessionTimers],
    due at most 30 minutes from now. *)
Theorem sessions_stay_live (events : list Event) :
  forallb request_event events = true →
  let w := run release init events in
  live w ∧
  ∀ k server, sessions w !! k = Some server →
    server ∈ ServerList._servers (serverList w) ∧
    ∃ timer due,
      sessionTimers w !! k = Some timer ∧
      timers w !! timer = Some (mkTimer k due) ∧
      (due ≤ now w + sessionTimeout)%N ∧
      ∀ timer' t, timers w !! timer' = Some t → t_sessionId t = k → timer' = timer.
Proof.
  intros Hevents w.
  assert (live w) as Hw.
  { subst w. unfold run. revert Hevents. generalize live_init. generalize init.
    induction events as [|e events IH]; intros w0 Hw0 Hall; [done|].
    simpl in Hall. apply andb_prop in Hall as [He Hall]. simpl.
    apply IH; [|done]. by apply live_step. }
  split; [done|]. destruct Hw as ([HA HB] & Hd & Hs & HD).
  intros k server Hk. destruct (Hs k server Hk) as [Hin [timer Htimer]].
  split; [done|]. destruct (HD k timer Htimer) as (due & Harmed & Hdue).
  exists timer, due. split_and!; try done.
  intros timer' t Ht <-. apply HA in Ht. congruence.
Qed.

(** X20: A request for one session leaves the others alone: their servers,
    the timeouts registered and armed for them, and the calls of
    [server.close()] are as before. *)
Theorem requests_leave_other_sessions_alone (w w1 : World) (k k' : string) :
  live w → completes k w w1 → k' ≠ k →
  sessions w1 !! k' = sessions w !! k' ∧
  sessionTimers w1 !! k' = sessionTimers w !! k' ∧
  (∀ timer t, t_sessionId t = k' →
     timers w1 !! timer = Some t ↔ timers w !! timer = Some t) ∧
  ServerList.close_calls (serverList w1) = ServerList.close_calls (serverList w).
Proof.
  intros ([HA HB] & _ & _ & HD) Hdone Hne.
  assert (∃ x, w1 = reset_timeout k x ∧
               sessions x !! k' = sessions w !! k' ∧
               sessionTimers x = sessionTimers w ∧ timers x = timers w ∧
               next_timer x = next_timer w ∧
               ServerList.close_calls (serverList x)
               = ServerList.close_calls (serverList w))
    as (x & -> & Hs & Hst & Ht & Hnext & Hcalls).
  { destruct Hdone as [[[server Hk] ->] | [Hin ->]].
    - unfold middleware. rewrite Hk. cbn [fst]. by eexists.
    - unfold middleware_created. rewrite decide_True by done.
      unfold ServerList.create. cbn [fst]. eexists. split; [done|].
      simpl. by rewrite lookup_insert_ne. }
  destruct (reset_timeout_frame k x) as (_ & Hsl & Hsess & _).
  destruct (reset_timeout_armed k x) as (Hreg & Hnew).
  rewrite Hsl, Hsess, Hreg, Hs, Hst, Hcalls.
  rewrite lookup_insert_ne by done. split_and!; try done.
  intros timer t Hk'.
  destruct (decide (timer = next_timer x)) as [->|Hfresh].
  - rewrite Hnew. split.
    + intros [= <-]. simpl in Hk'. congruence.
    + intros Ht'%HA%HB. lia.
  - rewrite reset_timeout_others by done. rewrite Hst, Ht.
    case_decide as Hold; [|done]. split; [done|].
    intros Ht'. destruct (HD k timer Hold) as (due & Harmed & _).
    rewrite Harmed in Ht'. injection Ht' as <-. simpl in Hk'. congruence.
Qed.

(** X21: A request that arrives while the timeout callback of its session
    awaits the close of the server gets that server, on which
    [server.close()] was called and which is no longer in the registry;
    when the callback resumes it deletes the session and the timeout
    entry, so that the timeout the request armed stays armed for a
    session that does not exist and that [sessionTimers] does not
    have. *)
Theorem request_during_eviction_gets_the_closing_server
  (w : World) (k : string) (timer : Timeout) (due : N) (server : Server) (p : N) :
  distinct (serverList w) →
  sessionTimers w !! k = Some timer →
  timers w !! timer = Some (mkTimer k due) →
  (due ≤ now w)%N →
  sessions w !! k = Some server →
  timer ≠ next_timer w →
  release (ServerList.close_calls (serverList w)) server = FulfilledAt p →
  let w1 := timeout_fires release timer w in
  let w2 := (middleware k w1).1 in
  let w3 := timeout_resumes k (advance p w2) in
  (middleware k w1).2 = Some server ∧
  (server ∈ ServerList.close_calls (serverList w1)) ∧
  (server ∉ ServerList._servers (serverList w1)) ∧
  sessions w3 !! k = None ∧
  sessionTimers w3 !! k = None ∧
  timers w3 !! next_timer w = Some (mkTimer k (now w + sessionTimeout)) ∧
  ¬ tracked w3.
Proof.
  intros [Hnd _] Hst Ht Hdue Hs Hfresh Hrel w1 w2 w3.
  assert (w1 = set_evicting (cons (k, FulfilledAt (now w + p)))
                 (set_serverList
                    (λ _, (ServerList.close release server (serverList w)).1)
                    (console_log (LogTimedOut k) (set_timers (delete timer) w))))
    as Hw1.
  { subst w1. unfold timeout_fires. rewrite Ht. cbn [t_due t_sessionId].
    rewrite decide_True by done. unfold timeout_callback.
    cbn [sessions console_log set_timers]. rewrite Hs.
    unfold ServerList.close. cbn [serverList console_log set_timers].
    by rewrite Hrel. }
  assert (w2 = reset_timeout k (console_log (LogReusing k) w1)) as Hw2.
  { subst w2. unfold middleware. rewrite Hw1 at 1. cbn [sessions set_evicting
      set_serverList console_log set_timers]. by rewrite Hs. }
  assert ((middleware k w1).2 = Some server) as Hreuse.
  { unfold middleware. rewrite Hw1 at 1. cbn [sessions set_evicting
      set_serverList console_log set_timers]. by rewrite Hs. }
  destruct (reset_timeout_frame k (console_log (LogReusing k) w1))
    as (Hnow2 & _ & Hsess2 & _ & Hev2 & _).
  destruct (reset_timeout_armed k (console_log (LogReusing k) w1)) as (Hreg2 & Hnew2).
  rewrite <- Hw2 in *.
  assert (next_timer (console_log (LogReusing k) w1) = next_timer w) as Hnext
    by by rewrite Hw1.
  assert (now (console_log (LogReusing k) w1) = now w) as Hnow by by rewrite Hw1.
  rewrite Hnext, Hnow in *.
  assert (evicting w2 = (k, FulfilledAt (now w + p)) :: evicting w) as Hev
    by by rewrite Hev2, Hw1.
  assert (w3 = set_sessionTimers (delete k)
                 (set_sessions (delete k)
                    (set_evicting (resume_evicting k) (advance p w2)))) as Hw3.
  { subst w3. unfold timeout_resumes. cbn [evicting advance set_now].
    rewrite Hev. cbn [awaited]. rewrite decide_True by done.
    rewrite decide_True; [done|].
    change (now (advance p w2)) with (now w2 + p)%N. rewrite Hnow2. lia. }
  split_and!.
  - exact Hreuse.
  - rewrite Hw1. simpl. apply elem_of_app. right. by apply list_elem_of_singleton.
  - rewrite Hw1. simpl. by apply RegistryClaims.splice_indexOf_NoDup.
  - rewrite Hw3. simpl. apply lookup_delete_eq.
  - rewrite Hw3. simpl. apply lookup_delete_eq.
  - rewrite Hw3. simpl. exact Hnew2.
  - intros [HA _]. specialize (HA (next_timer w) (mkTimer k (now w + sessionTimeout))).
    rewrite Hw3 in HA. simpl in HA. rewrite lookup_delete_eq in HA.
    by specialize (HA Hnew2).
Qed.

(** One entry of the loop of [gracefulShutdown]. *)
Lemma close_session_entry (w : World) (ps : list Promise) (k : string) (server : Server) :
  let w' := (close_session release (w, ps) (k, server)).1 in
  sessionTimers w' = delete k (sessionTimers w) ∧
  (∀ timer, sessionTimers w !! k = Some timer → timers w' !! timer = None) ∧
  (∀ timer t, timers w' !! timer = Some t → timers w !! timer = Some t) ∧
  ServerList._servers (serverList w')
  = ServerList.splice_indexOf server (ServerList._servers (serverList w)).
Proof.
  unfold close_session, ServerList.close. cbn [fst sessionTimers set_serverList].
  destruct (sessionTimers w !! k) as [timer|] eqn:E; cbn.
  - split_and!; try done.
    + intros ? [= <-]. apply lookup_delete_eq.
    + intros timer' t Ht. by apply lookup_delete_Some in Ht as [_ ?].
  - split_and!; try done. symmetry. by apply delete_id.
Qed.

Lemma close_sessions_entries (entries : list (string * Server)) (w : World)
  (ps : list Promise) :
  let w' := (foldl (close_session release) (w, ps) entries).1 in
  (∀ k, k ∈ entries.*1 → sessionTimers w' !! k = None) ∧
  (∀ k timer, k ∈ entries.*1 → sessionTimers w !! k = Some timer →
     timers w' !! timer = None) ∧
  (∀ timer t, timers w' !! timer = Some t → timers w !! timer = Some t) ∧
  (∀ k, sessionTimers w !! k = None → sessionTimers w' !! k = None) ∧
  (∀ server, server ∈ ServerList._servers (serverList w') →
     server ∈ ServerList._servers (serverList w)) ∧
  (NoDup (ServerList._servers (serverList w)) →
   NoDup (ServerList._servers (serverList w')) ∧
   ∀ server, server ∈ entries.*2 → server ∉ ServerList._servers (serverList w')).
Proof.
  revert w ps. induction entries as [|[k server] entries IH]; intros w ps.
  - simpl. split_and!; try done.
    + by intros k ?%elem_of_nil.
    + by intros k timer ?%elem_of_nil.
    + intros Hnd. split; [done|]. by intros server ?%elem_of_nil.
  - cbn [foldl].
    destruct (close_session_entry w ps k server) as (Hst & Hclear & Hmono & Hservers).
    destruct (close_session release (w, ps) (k, server)) as [w1 ps1]. cbn [fst] in *.
    destruct (IH w1 ps1) as (IH1 & IH2 & IH3 & IH4 & IH5 & IH6).
    split_and!.
    + intros k' [->|Hin]%elem_of_cons; [|by apply IH1].
      apply IH4. rewrite Hst. apply lookup_delete_eq.
    + intros k' timer [->|Hin]%elem_of_cons Hk'.
      * destruct (timers _ !! timer) as [t|] eqn:E; [|done].
        apply IH3 in E. by rewrite (Hclear timer Hk') in E.
      * destruct (decide (k' = k)) as [->|Hne].
        -- destruct (timers _ !! timer) as [t|] eqn:E; [|done].
           apply IH3 in E. by rewrite (Hclear timer Hk') in E.
        -- apply (IH2 k'); [done|]. rewrite Hst. by rewrite lookup_delete_ne.
    + intros timer t Ht. by apply Hmono, IH3.
    + intros k' Hk'. apply IH4. rewrite Hst.
      destruct (decide (k = k')) as [->|Hne];
        [apply lookup_delete_eq|by rewrite lookup_delete_ne].
    + intros server' Hin%IH5. rewrite Hservers in Hin.
      by eapply RegistryFacts.splice_indexOf_subseteq.
    + intros Hnd.
      assert (NoDup (ServerList._servers (serverList w1))) as Hnd1
        by (rewrite Hservers; by apply RegistryFacts.splice_indexOf_NoDup_keeps).
      destruct (IH6 Hnd1) as [Hnd' Hout]. split; [done|].
      intros server' [->|Hin]%elem_of_cons; [|by apply Hout].
      intros Hin%IH5. rewrite Hservers in Hin.
      by apply (RegistryClaims.splice_indexOf_NoDup server _ Hnd).
Qed.

(** X23: The callback of [gracefulShutdown] leaves no session behind: for
    every session there was, the entry of its timeout is deleted, the
    timeout is cleared so that it cannot fire, and its server is out of
    the registry; timeouts are cleared only, none is armed. *)
Theorem shutdown_clears_sessions_and_timeouts (w : World) :
  NoDup (ServerList._servers (serverList w)) →
  let w' := (close_sessions release w).1 in
  sessions w' = ∅ ∧
  (∀ k server, sessions w !! k = Some server →
     sessionTimers w' !! k = None ∧
     (∀ timer, sessionTimers w !! k = Some timer → timers w' !! timer = None) ∧
     server ∉ ServerList._servers (serverList w')) ∧
  (∀ timer t, timers w' !! timer = Some t → timers w !! timer = Some t).
Proof.
  intros Hnd w'. subst w'. unfold close_sessions.
  destruct (close_sessions_entries (map_to_list (sessions w)) w [])
    as (H1 & H2 & H3 & _ & _ & H6).
  destruct (foldl _ _ _) as [w1 ps]. cbn [fst] in *.
  split; [done|]. cbn [sessionTimers timers serverList set_sessions].
  split; [|done]. intros k server Hk.
  apply elem_of_map_to_list in Hk.
  assert (k ∈ (map_to_list (sessions w)).*1) as Hk1
    by (apply list_elem_of_fmap; by exists (k, server)).
  assert (server ∈ (map_to_list (sessions w)).*2) as Hk2
    by (apply list_elem_of_fmap; by exists (k, server)).
  split_and!.
  - by apply H1.
  - intros timer. by apply H2.
  - by apply (H6 Hnd).
Qed.


Lemma timeout_resumes_registry (k : string) (w : World) :
  serverList (timeout_resumes k w) = serverList w.
Proof.
  unfold timeout_resumes.
  destruct (awaited k (evicting w)) as [[|t|t e]|]; repeat case_decide; done.
Qed.

(** X25: The server that a creation race leaves without a session is not
    closed by the eviction of the session: after two requests for a new
    session that both created a server, and after the timeout of the
    session has fired and closed the second server, the first is still
    in the registry and [server.close()] was never called on it. *)
Theorem creation_race_leaves_a_server_behind
  (w : World) (k : string) (p : N) :
  tracked w →
  sessions w !! k = None →
  release (ServerList.close_calls (serverList w)) (S (created w)) = FulfilledAt p →
  let w1 := run release w [Arrives k; Arrives k; Created k; Created k] in
  let w2 := timeout_fires release (S (next_timer w)) (advance sessionTimeout w1) in
  let w3 := timeout_resumes k (advance p w2) in
  sessions w1 !! k = Some (S (created w)) ∧
  sessions w3 !! k = None ∧
  sessionTimers w3 !! k = None ∧
  created w ∈ ServerList._servers (serverList w3) ∧
  ServerList.close_calls (serverList w3)
  = ServerList.close_calls (serverList w) ++ [S (created w)].
Proof.
  intros Htracked Hk Hrel w1 w2 w3.
  destruct (run_suspends release k 2 w Hk) as (Hs0 & Hsl0 & Hc0 & _).
  set (wa := run release w (replicate 2 (Arrives k))) in *.
  assert (tracked wa) as Hta.
  { apply (tracked_middleware k), (tracked_middleware k), Htracked. }
  assert (next_timer wa = next_timer w ∧ now wa = now w) as [Hnexta Hnowa].
  { subst wa. cbn [run replicate foldl step].
    rewrite (middleware_suspends k w Hk). cbn [fst].
    rewrite middleware_suspends by done. done. }
  destruct (middleware_created_resumes k wa _ Hc0)
    as (Hcrb & Hsvb & Hccb & Hsb & Hcb & _).
  set (wb := (middleware_created k wa).1) in *.
  assert (tracked wb) as Htb by by apply tracked_middleware_created.
  assert (next_timer wb = S (next_timer w) ∧ now wb = now w) as [Hnextb Hnowb].
  { subst wb. unfold middleware_created. rewrite decide_True by (rewrite Hc0; by left).
    unfold ServerList.create. cbn [fst].
    match goal with
    | |- context [reset_timeout k ?x] =>
        destruct (reset_timeout_frame k x) as (Hn & _ & _ & _ & _ & _ & Hnt)
    end.
    rewrite Hn, Hnt. simpl. by rewrite Hnexta, Hnowa. }
  simpl in Hcb.
  destruct (middleware_created_resumes k wb _ Hcb)
    as (Hcrc & Hsvc & Hccc & Hsc & _ & _).
  assert (completes k wb (middleware_created k wb).1) as Hdone.
  { right. split; [|done]. rewrite Hcb. by left. }
  destruct (completes_reset k wb _ Hdone)
    as (x & Hwc & Hnowx & _ & _ & Hnextx & _).
  destruct (reset_timeout_armed k x) as (_ & Harmed).
  destruct (reset_timeout_frame k x) as (Hnowc & _).
  rewrite <- Hwc in Harmed, Hnowc.
  assert (w1 = (middleware_created k wb).1) as Hw1 by done.
  assert (created wa = created w) as Hcra by (unfold created; by rewrite Hsl0).
  rewrite Hcra in *. rewrite <- Hw1 in *. rewrite Hcrb in *.
  assert (sessions w1 !! k = Some (S (created w))) as Hs1
    by (rewrite Hsc; apply lookup_insert_eq).
  rewrite Hnextx, Hnextb, Hnowx, Hnowb in Harmed.
  destruct (timeout_due_evicts release (advance sessionTimeout w1) k
              (S (next_timer w)) (now w + sessionTimeout) (S (created w)) p)
    as (Hcalls & Hservers & _ & _ & _ & Hgone & Htimer & _).
  { exact Harmed. }
  { cbn [advance set_now now]. rewrite Hnowc, Hnowx, Hnowb. lia. }
  { exact Hs1. }
  { cbn [advance set_now serverList]. rewrite Hccc, Hccb. by rewrite Hsl0. }
  fold w2 in Hcalls, Hservers, Hgone, Htimer. fold w3 in Hgone, Htimer.
  split_and!; try done.
  - subst w3. rewrite timeout_resumes_registry. cbn [advance set_now serverList].
    rewrite Hservers. cbn [advance set_now serverList]. rewrite Hsvc, Hsvb.
    apply RegistryClaims.elem_of_splice_indexOf_ne; [lia|].
    apply elem_of_app. left. apply elem_of_app. right.
    by apply list_elem_of_singleton.
  - subst w3. rewrite timeout_resumes_registry. cbn [advance set_now serverList].
    rewrite Hcalls. cbn [advance set_now serverList]. rewrite Hccc, Hccb.
    by rewrite Hsl0.
Qed.


End WithRelease.

Lemma sessions_stay_live_witness :
  let w :=
    run release_ok init
      [Arrives "a"; Arrives "b"; Arrives "a"; Created "a"; Passes 1000;
       Created "b"; Created "a"; Arrives "b"] in
  sessions w !! "a" = Some 2 ∧ sessions w !! "b" = Some 1 ∧ live w.
Proof.
  intros w. split_and!; [by vm_compute..|].
  by destruct (sessions_stay_live release_ok
                 [Arrives "a"; Arrives "b"; Arrives "a"; Created "a"; Passes 1000;
                  Created "b"; Created "a"; Arrives "b"] eq_refl) as [Hlive _].
Defined.

Lemma requests_leave_other_sessions_alone_witness :
  let w := run release_ok init [Arrives "a"; Created "a"; Arrives "b"] in
  live w ∧ completes "b" w (middleware_created "b" w).1 ∧
  sessions (middleware_created "b" w).1 !! "a" = Some 0 ∧
  sessionTimers (middleware_created "b" w).1 !! "a" = Some 0.
Proof.
  intros w.
  assert (live w) as Hw.
  { by destruct (live_step release_ok _ (Arrives "b") eq_refl
                   (live_step release_ok _ (Created "a") eq_refl
                      (live_step release_ok _ (Arrives "a") eq_refl live_init))). }
  assert (completes "b" w (middleware_created "b" w).1) as Hdone.
  { right. split; [|done]. apply (bool_decide_unpack _). by vm_compute. }
  destruct (requests_leave_other_sessions_alone w _ "b" "a" Hw Hdone ltac:(done))
    as (Hs & Hst & _).
  split_and!; [exact Hw|exact Hdone| |].
  - etrans; [exact Hs|by vm_compute].
  - etrans; [exact Hst|by vm_compute].
Defined.

Lemma idle_session_distinct :
  distinct (serverList (advance 1800000 (run release_ok init [Arrives "s"; Created "s"]))).
Proof.
  split.
  - apply (bool_decide_unpack _). by vm_compute.
  - intros x Hx.
    change (ServerList._servers _) with [0] in Hx.
    change (ServerList.next_server _) with 1.
    apply elem_of_cons in Hx as [->|Hx]; [lia|]. by apply elem_of_nil in Hx.
Qed.

Lemma request_during_eviction_gets_the_closing_server_witness :
  let w := advance 1800000 (run release_ok init [Arrives "s"; Created "s"]) in
  let w1 := timeout_fires release_ok 0 w in
  (middleware "s" w1).2 = Some 0 ∧
  ServerList.close_calls (serverList w1) = [0] ∧
  timers (timeout_resumes "s" (advance 20 (middleware "s" w1).1)) !! 1
  = Some (mkTimer "s" 3600000).
Proof.
  intros w w1.
  destruct (request_during_eviction_gets_the_closing_server release_ok w "s" 0
              1800000 0 20 idle_session_distinct eq_refl eq_refl ltac:(done)
              eq_refl ltac:(done) eq_refl) as (Hreuse & _ & _ & _ & _ & Harmed & _).
  split_and!; [exact Hreuse|by vm_compute|exact Harmed].
Defined.

Lemma shutdown_clears_sessions_and_timeouts_witness :
  let w := run release_ok init [Arrives "s"; Created "s"] in
  NoDup (ServerList._servers (serverList w)) ∧
  sessions (close_sessions release_ok w).1 = ∅ ∧
  sessionTimers (close_sessions release_ok w).1 !! "s" = None ∧
  timers (close_sessions release_ok w).1 !! 0 = None.
Proof.
  intros w.
  assert (NoDup (ServerList._servers (serverList w))) as Hnd
    by (apply (bool_decide_unpack _); by vm_compute).
  destruct (shutdown_clears_sessions_and_timeouts release_ok w Hnd)
    as (Hempty & Hsession & _).
  destruct (Hsession "s" 0 eq_refl) as (Hentry & Htimer & _).
  split_and!; [exact Hnd|exact Hempty|exact Hentry|exact (Htimer 0 eq_refl)].
Defined.

Lemma creation_race_leaves_a_server_behind_witness :
  let w1 := run release_ok init [Arrives "s"; Arrives "s"; Created "s"; Created "s"] in
  let w3 :=
    timeout_resumes "s"
      (advance 20 (timeout_fires release_ok 1 (advance sessionTimeout w1))) in
  sessions w1 !! "s" = Some 1 ∧
  sessions w3 !! "s" = None ∧
  0 ∈ ServerList._servers (serverList w3) ∧
  ServerList.close_calls (serverList w3) = [1].
Proof.
  intros w1 w3.
  destruct (creation_race_leaves_a_server_behind release_ok init "s" 20
              tracked_init eq_refl eq_refl) as (Hs1 & Hs3 & _ & Hin & Hcalls).
  split_and!; [exact Hs1|exact Hs3|exact Hin|exact Hcalls].
Defined.


End SessionFacts.
